(** * Persona ChatBot (main.py): conversation history, persistence and export

    A shallow embedding of the history store and of the three handlers
    (Send, Clear History, Export JSON) of [main.py], together with the
    parts of the Python runtime they run on: [str.strip], the [json]
    encoder and decoder, a text file store, the clock and the remote
    completion service.

    Conventions.
    - A Python [str] is the list of its code points ([pystr]).
    - A Python value that can sit in the history is a JSON-like value
      ([pyval]); a [dict] keeps its insertion order and has distinct keys.
    - Floating point arithmetic is not modelled: [PyFloat] is the interface
      of the [float] type the program uses (its JSON text, [float(s)] and
      [<=]). What the proofs need of a float is stated where it is needed
      ([float_roundtrips]).
    - The clock and the remote service are inputs ([world]); every reading
      of the clock and every remote call happens at its own instant.
    - A script run shows and sends things; they are collected in a log of
      [effect]s, next to the new state.
    - Operating-system failures (permissions, full disk, a directory in the
      place of the file) are outside the model, and so are the decoder's
      limits on nesting depth and on the digits of an integer; what the
      program's own data can cause (a text that UTF-8 cannot encode, a
      file that is not JSON) is inside.
    - Of the page, the conversation is modelled ([render_chat] and its
      place in a script run, before the buttons); the local calendar is an
      interface ([PyTime]), like the floats. *)

From Stdlib Require Import ZArith NArith Ascii String Decimal DecimalFacts DecimalZ.
From stdpp Require Import base numbers option list gmap.

Local Open Scope N_scope.
#[local] Set Warnings "-register-all".

(** ** Python strings *)

Definition pystr := list N.

(** An ASCII literal of the source as a Python string. *)
Definition py (s : string) : pystr := N_of_ascii <$> list_ascii_of_string s.

(** The same, with every apostrophe standing for a double quote: used to
    write down the text of JSON files. *)
Definition pyq (s : string) : pystr :=
  (λ c, if c =? 39 then 34 else c) <$> py s.

(** [str.isspace] on one code point (CPython's [_PyUnicode_IsWhitespace]). *)
Definition isspace (c : N) : bool :=
  ((9 <=? c) && (c <=? 13)) || ((28 <=? c) && (c <=? 32))
  || (c =? 133) || (c =? 160) || (c =? 5760)
  || ((8192 <=? c) && (c <=? 8202))
  || (c =? 8232) || (c =? 8233) || (c =? 8239) || (c =? 8287) || (c =? 12288).

Fixpoint lstrip (s : pystr) : pystr :=
  match s with
  | c :: r => if isspace c then lstrip r else s
  | [] => []
  end.

Definition rstrip (s : pystr) : pystr := reverse (lstrip (reverse s)).

(** [s.strip()] *)
Definition strip (s : pystr) : pystr := rstrip (lstrip s).

(** A code point UTF-8 cannot encode: a lone surrogate. *)
Definition is_surrogate (c : N) : bool := (55296 <=? c) && (c <=? 57343).

(** [s.encode("utf-8")] succeeds. *)
Definition utf8_encodable (s : pystr) : bool := forallb (λ c, negb (is_surrogate c)) s.

(** ** Python floats and values *)

Class PyFloat := {
  float : Type;
  (** the text [json] emits for a float: [float.__repr__], or one of
      [NaN], [Infinity], [-Infinity] *)
  floatstr : float → pystr;
  (** [float(s)] *)
  float_of_str : pystr → float;
  (** [x <= y] *)
  float_le : float → float → Prop;
}.

Section Model.
Context {PF : PyFloat}.

Inductive pyval :=
| PNone
| PBool (b : bool)
| PInt (z : Z)
| PFloat (x : float)
| PStr (s : pystr)
| PList (l : list pyval)
| PDict (d : list (pystr * pyval)).

(** [d.get(k)] *)
Fixpoint dict_get (k : pystr) (d : list (pystr * pyval)) : option pyval :=
  match d with
  | [] => None
  | (k', v) :: r => if decide (k = k') then Some v else dict_get k r
  end.

(** [d[k] = v]: a key already present keeps its place. *)
Fixpoint dict_set (k : pystr) (v : pyval) (d : list (pystr * pyval)) : list (pystr * pyval) :=
  match d with
  | [] => [(k, v)]
  | (k', v') :: r => if decide (k = k') then (k', v) :: r else (k', v') :: dict_set k v r
  end.

(** [h[k]] for a string key: only a dict that has the key answers. *)
Definition subscript (h : pyval) (k : pystr) : option pyval :=
  match h with
  | PDict d => dict_get k d
  | _ => None
  end.

(** ** The [json] encoder, as [json.dump(..., indent=2, ensure_ascii=False)] runs it *)

Definition hexdigit (n : N) : N := if n <? 10 then 48 + n else 87 + n.

(** One character of a string literal ([ESCAPE_DCT] of [json.encoder]). *)
Definition escape_char (c : N) : pystr :=
  if c =? 34 then [92; 34]
  else if c =? 92 then [92; 92]
  else if c =? 10 then [92; 110]
  else if c =? 13 then [92; 114]
  else if c =? 9 then [92; 116]
  else if c =? 8 then [92; 98]
  else if c =? 12 then [92; 102]
  else if c <? 32 then [92; 117; 48; 48; hexdigit (c / 16); hexdigit (c mod 16)]
  else [c].

Definition encode_basestring (s : pystr) : pystr :=
  [34] ++ flat_map escape_char s ++ [34].

Fixpoint uint_str (d : Decimal.uint) : pystr :=
  match d with
  | Nil => []
  | D0 r => 48 :: uint_str r
  | D1 r => 49 :: uint_str r
  | D2 r => 50 :: uint_str r
  | D3 r => 51 :: uint_str r
  | D4 r => 52 :: uint_str r
  | D5 r => 53 :: uint_str r
  | D6 r => 54 :: uint_str r
  | D7 r => 55 :: uint_str r
  | D8 r => 56 :: uint_str r
  | D9 r => 57 :: uint_str r
  end.

(** [int.__repr__] *)
Definition int_repr (z : Z) : pystr :=
  match Z.to_int z with
  | Decimal.Pos d => uint_str d
  | Decimal.Neg d => 45 :: uint_str d
  end.

Definition newline_indent (level : nat) : pystr := 10 :: replicate (2 * level) 32.

(** [sep.join(parts)] *)
Definition join (sep : pystr) (parts : list pystr) : pystr :=
  match parts with
  | [] => []
  | p :: ps => p ++ flat_map (app sep) ps
  end.

(** The text of a value at a nesting level. *)
Fixpoint encode (level : nat) (o : pyval) : pystr :=
  match o with
  | PNone => py "null"
  | PBool true => py "true"
  | PBool false => py "false"
  | PInt z => int_repr z
  | PFloat x => floatstr x
  | PStr s => encode_basestring s
  | PList [] => py "[]"
  | PList l =>
      [91] ++ newline_indent (S level)
      ++ join (44 :: newline_indent (S level)) (map (encode (S level)) l)
      ++ newline_indent level ++ [93]
  | PDict [] => py "{}"
  | PDict d =>
      [123] ++ newline_indent (S level)
      ++ join (44 :: newline_indent (S level))
           (map (λ kv, match kv with
                       | (k, v) => encode_basestring k ++ [58; 32] ++ encode (S level) v
                       end) d)
      ++ newline_indent level ++ [125]
  end.

(** [json.dumps(o, ensure_ascii=False, indent=2)] *)
Definition json_dumps (o : pyval) : pystr := encode 0 o.

Definition is_scalar (o : pyval) : bool :=
  match o with
  | PList _ | PDict _ => false
  | _ => true
  end.

(** The chunks [json.dump] hands to [fp.write] one by one
    ([_make_iterencode] of [json.encoder]): inside a list a scalar leaves
    in one chunk with the bracket or separator before it, inside a dict
    the key, the colon and a scalar value are chunks of their own. *)
Fixpoint iterencode (level : nat) (o : pyval) : list pystr :=
  match o with
  | PList [] => [py "[]"]
  | PList (x :: xs) =>
      let item (buf : pystr) (v : pyval) :=
        if is_scalar v then [buf ++ encode (S level) v]
        else buf :: iterencode (S level) v in
      item ([91] ++ newline_indent (S level)) x
      ++ flat_map (item (44 :: newline_indent (S level))) xs
      ++ [newline_indent level; [93]]
  | PDict [] => [py "{}"]
  | PDict (kv :: kvs) =>
      let item (kv : pystr * pyval) :=
        match kv with
        | (k, v) => [encode_basestring k; [58; 32]] ++ iterencode (S level) v
        end in
      [[123]; newline_indent (S level)] ++ item kv
      ++ flat_map (λ kv, (44 :: newline_indent (S level)) :: item kv) kvs
      ++ [newline_indent level; [125]]
  | _ => [encode level o]
  end.

(** ** The [json] decoder, as CPython's scanner runs it *)

Definition is_ws (c : N) : bool := (c =? 32) || (c =? 9) || (c =? 10) || (c =? 13).

Fixpoint skip_ws (s : pystr) : pystr :=
  match s with
  | c :: r => if is_ws c then skip_ws r else s
  | [] => []
  end.

Definition is_digit (c : N) : bool := (48 <=? c) && (c <=? 57).

Definition hexval (c : N) : option N :=
  if is_digit c then Some (c - 48)
  else if (97 <=? c) && (c <=? 102) then Some (c - 87)
  else if (65 <=? c) && (c <=? 70) then Some (c - 55)
  else None.

(** The four hex digits of a [\uXXXX] escape. *)
Definition hex4 (s : pystr) : option (N * pystr) :=
  match s with
  | a :: b :: c :: d :: r =>
      a ← hexval a; b ← hexval b; c ← hexval c; d ← hexval d;
      Some (((a * 16 + b) * 16 + c) * 16 + d, r)
  | _ => None
  end.

(** The character a one-letter escape stands for ([BACKSLASH]). *)
Definition unescape (e : N) : option N :=
  if e =? 34 then Some 34
  else if e =? 92 then Some 92
  else if e =? 47 then Some 47
  else if e =? 98 then Some 8
  else if e =? 102 then Some 12
  else if e =? 110 then Some 10
  else if e =? 114 then Some 13
  else if e =? 116 then Some 9
  else None.

Definition is_high_surrogate (c : N) : bool := (55296 <=? c) && (c <=? 56319).
Definition is_low_surrogate (c : N) : bool := (56320 <=? c) && (c <=? 57343).
Definition join_surrogates (hi lo : N) : N := 65536 + (hi - 55296) * 1024 + (lo - 56320).

Definition prepend (c : N) (res : option (pystr * pystr)) : option (pystr * pystr) :=
  '(t, r) ← res; Some (c :: t, r).

(** [scanstring] in strict mode, from just after the opening quote: the
    string and what follows its closing quote. One unit of fuel per
    character or escape. *)
Fixpoint scanstring (fuel : nat) (s : pystr) : option (pystr * pystr) :=
  match fuel with
  | O => None
  | S n =>
    match s with
    | [] => None
    | c :: r =>
      if c =? 34 then Some ([], r)
      else if c =? 92 then
        match r with
        | [] => None
        | e :: r1 =>
          if e =? 117 then
            '(u, r2) ← hex4 r1;
            if is_high_surrogate u then
              match r2 with
              | a :: b :: r3 =>
                  if (a =? 92) && (b =? 117) then
                    '(u2, r4) ← hex4 r3;
                    if is_low_surrogate u2
                    then prepend (join_surrogates u u2) (scanstring n r4)
                    else prepend u (scanstring n r2)
                  else prepend u (scanstring n r2)
              | _ => prepend u (scanstring n r2)
              end
            else prepend u (scanstring n r2)
          else
            u ← unescape e; prepend u (scanstring n r1)
        end
      else if c <? 32 then None
      else prepend c (scanstring n r)
    end
  end.

Definition scan_str (s : pystr) : option (pystr * pystr) := scanstring (length s) s.

Fixpoint span_digits (s : pystr) : pystr * pystr :=
  match s with
  | c :: r =>
      if is_digit c then let '(ds, r') := span_digits r in (c :: ds, r') else ([], s)
  | [] => ([], [])
  end.

Fixpoint str_uint (s : pystr) : Decimal.uint :=
  match s with
  | [] => Nil
  | c :: r =>
      let d := str_uint r in
      if c =? 48 then D0 d else if c =? 49 then D1 d else if c =? 50 then D2 d
      else if c =? 51 then D3 d else if c =? 52 then D4 d else if c =? 53 then D5 d
      else if c =? 54 then D6 d else if c =? 55 then D7 d else if c =? 56 then D8 d
      else D9 d
  end.

(** [int(s)] on a sign and a run of digits. *)
Definition int_of_literal (negative : bool) (digits : pystr) : Z :=
  Z.of_int (if negative then Decimal.Neg (str_uint digits) else Decimal.Pos (str_uint digits)).

(** The stages of [_match_number_unicode]: each takes what it matches off
    the head of the text. *)
Definition number_sign (s : pystr) : bool * pystr :=
  match s with
  | c :: r => if c =? 45 then (true, r) else (false, s)
  | [] => (false, s)
  end.

(** [0], or a digit from 1 to 9 and every digit after it. *)
Definition number_int (s : pystr) : option (pystr * pystr) :=
  match s with
  | c :: r =>
      if c =? 48 then Some ([c], r)
      else if is_digit c then let '(ds, r') := span_digits r in Some (c :: ds, r')
      else None
  | [] => None
  end.

(** A point followed by a digit, and every digit after it. *)
Definition number_frac (s : pystr) : pystr * pystr :=
  match s with
  | d :: c :: r =>
      if (d =? 46) && is_digit c
      then let '(ds, r') := span_digits r in (d :: c :: ds, r')
      else ([], s)
  | _ => ([], s)
  end.

(** [e] or [E], a sign if there is one, and digits; nothing when no digit
    follows. *)
Definition number_exp (s : pystr) : pystr * pystr :=
  match s with
  | e :: r =>
      if (e =? 101) || (e =? 69) then
        let '(sg, r1) :=
          match r with
          | c :: r' => if (c =? 43) || (c =? 45) then ([c], r') else ([], r)
          | [] => ([], r)
          end in
        let '(ds, r2) := span_digits r1 in
        match ds with
        | [] => ([], s)
        | _ => (e :: sg ++ ds, r2)
        end
      else ([], s)
  | [] => ([], s)
  end.

(** The number at the head of the text: an [int] when it has neither a
    fraction nor an exponent, else a [float] of the matched text. *)
Definition match_number (s : pystr) : option (pyval * pystr) :=
  let '(negative, s1) := number_sign s in
  '(int_part, s2) ← number_int s1;
  let '(frac, s3) := number_frac s2 in
  let '(exp, s4) := number_exp s3 in
  match frac, exp with
  | [], [] => Some (PInt (int_of_literal negative int_part), s4)
  | _, _ =>
      Some (PFloat (float_of_str
                      ((if negative then [45] else []) ++ int_part ++ frac ++ exp)), s4)
  end.

Fixpoint strip_prefix (p s : pystr) : option pystr :=
  match p, s with
  | [], _ => Some s
  | a :: p', b :: s' => if a =? b then strip_prefix p' s' else None
  | _ :: _, [] => None
  end.

(** The items of a non-empty array, from its first item to after the
    closing bracket. *)
Fixpoint array_loop (scan : pystr → option (pyval * pystr)) (fuel : nat) (s : pystr)
  : option (list pyval * pystr) :=
  match fuel with
  | O => None
  | S n =>
    '(v, s1) ← scan s;
    match skip_ws s1 with
    | c :: r =>
        if c =? 93 then Some ([v], r)
        else if c =? 44 then
          '(vs, r') ← array_loop scan n (skip_ws r); Some (v :: vs, r')
        else None
    | [] => None
    end
  end.

(** The pairs of a non-empty object, from the quote of its first key to
    after the closing brace. *)
Fixpoint object_loop (scan : pystr → option (pyval * pystr)) (fuel : nat) (s : pystr)
  : option (list (pystr * pyval) * pystr) :=
  match fuel with
  | O => None
  | S n =>
    match s with
    | c :: r =>
        if c =? 34 then
          '(k, s1) ← scan_str r;
          match skip_ws s1 with
          | c1 :: r1 =>
              if c1 =? 58 then
                '(v, s2) ← scan (skip_ws r1);
                match skip_ws s2 with
                | c2 :: r2 =>
                    if c2 =? 125 then Some ([(k, v)], r2)
                    else if c2 =? 44 then
                      '(kvs, r') ← object_loop scan n (skip_ws r2); Some ((k, v) :: kvs, r')
                    else None
                | [] => None
                end
              else None
          | [] => None
          end
        else None
    | [] => None
    end
  end.

(** [dict(pairs)], built by one [d[k] = v] per pair. *)
Definition dict_of_pairs (pairs : list (pystr * pyval)) : list (pystr * pyval) :=
  fold_left (λ d kv, dict_set kv.1 kv.2 d) pairs [].

(** [scan_once]: the value at the head of the text and what follows it. *)
Fixpoint scan_once (fuel : nat) (s : pystr) : option (pyval * pystr) :=
  match fuel with
  | O => None
  | S n =>
    match s with
    | [] => None
    | c :: r =>
      if c =? 34 then '(t, r') ← scan_str r; Some (PStr t, r')
      else if c =? 123 then
        match skip_ws r with
        | c1 :: r1 =>
            if c1 =? 125 then Some (PDict [], r1)
            else '(kvs, r') ← object_loop (scan_once n) n (skip_ws r);
                 Some (PDict (dict_of_pairs kvs), r')
        | [] => None
        end
      else if c =? 91 then
        match skip_ws r with
        | c1 :: r1 =>
            if c1 =? 93 then Some (PList [], r1)
            else '(vs, r') ← array_loop (scan_once n) n (skip_ws r); Some (PList vs, r')
        | [] => None
        end
      else
        match strip_prefix (py "null") s with
        | Some r' => Some (PNone, r')
        | None =>
        match strip_prefix (py "true") s with
        | Some r' => Some (PBool true, r')
        | None =>
        match strip_prefix (py "false") s with
        | Some r' => Some (PBool false, r')
        | None =>
        match strip_prefix (py "NaN") s with
        | Some r' => Some (PFloat (float_of_str (py "nan")), r')
        | None =>
        match strip_prefix (py "Infinity") s with
        | Some r' => Some (PFloat (float_of_str (py "inf")), r')
        | None =>
        match strip_prefix (py "-Infinity") s with
        | Some r' => Some (PFloat (float_of_str (py "-inf")), r')
        | None => match_number s
        end end end end end end
    end
  end.

(** [json.loads(s)]: white space, one value, white space, end of text. *)
Definition json_loads (s : pystr) : option pyval :=
  '(v, r) ← scan_once (S (length s)) (skip_ws s);
  match skip_ws r with
  | [] => Some v
  | _ => None
  end.

(** ** main.py: configuration and personas *)

Definition PERSIST_FILE : string := "chat_history.json".
Definition DEFAULT_MODEL : pystr := py "gpt-3.5-turbo".

(** The keys of [PERSONAS]. *)
Inductive persona_key := RoastBot | ShakespeareBot | EmojiBot.

(** The key as the string the selector returns. *)
Definition persona_id (k : persona_key) : pystr :=
  match k with
  | RoastBot => py "RoastBot"
  | ShakespeareBot => py "ShakespeareBot"
  | EmojiBot => py "EmojiBot"
  end.

(** [PERSONAS[k]["system"]] *)
Definition persona_system (k : persona_key) : pystr :=
  match k with
  | RoastBot =>
      py "You are RoastBot. Give short, witty, playful roasts. If user asks for serious info, give it with a mild sarcastic touch."
  | ShakespeareBot =>
      py "You are ShakespeareBot. Reply in Early Modern English style. Use 'thee', 'thou', poetic phrasing, and a formal tone."
  | EmojiBot =>
      py "You are EmojiBot. Translate messages mostly into emojis. You can add a short English note in parentheses if needed."
  end.

(** The sidebar and the persona selector, as one script run reads them. *)
Record settings := {
  model : pystr;
  persist_to_disk : bool;
  persona : persona_key;
}.

(** ** The world outside the script *)

(** What [client.chat.completions.create] does: it raises (or returns a
    response without choices, which raises one line later), or it returns
    a response whose [choices[0].message.content] is a string or [None]. *)
Inductive completion :=
| api_raises
| api_returns (content : option pystr).

(** The clock and the remote service, indexed by the instant of the call. *)
Record world := {
  clock : nat → float;
  remote : nat → list pyval → completion;
}.

(** The exceptions the handlers meet. *)
Inductive exn :=
| JSONDecodeError
| AttributeError
| KeyOrTypeError
| UnicodeEncodeError
| APIError.

(** What a script run shows or sends; [st_exception] is the exception
    nothing caught, shown in place of the rest of the page. *)
Inductive effect :=
| st_warning_load (e : exn)
| st_warning_empty
| st_error_save (e : exn)
| st_error_send (e : exn)
| st_success_cleared
| st_rerun
| st_download (data : pystr)
| st_exception (e : exn)
| completions_create (messages : list pyval) (r : completion).

(** [st.session_state.history], the files, and the instant. *)
Record state := {
  history : pyval;
  disk : gmap string pystr;
  tick : nat;
}.

(** ** main.py: utility functions *)

(** [fp.write(chunk)] for every chunk: the first chunk UTF-8 cannot encode
    raises, and what was written before it stays in the file. *)
Fixpoint write_chunks (chunks : list pystr) (written : pystr) : pystr * bool :=
  match chunks with
  | [] => (written, true)
  | c :: cs =>
      if utf8_encodable c then write_chunks cs (written ++ c) else (written, false)
  end.

Definition save_history (now : float) (history : pyval) (filename : string)
    (disk : gmap string pystr) : gmap string pystr * list effect :=
  let data := PDict [(py "saved_at", PFloat now); (py "history", history)] in
  let '(text, ok) := write_chunks (iterencode 0 data) [] in
  (<[filename := text]> disk, if ok then [] else [st_error_save UnicodeEncodeError]).

Definition load_history (disk : gmap string pystr) (filename : string)
  : pyval * list effect :=
  match disk !! filename with
  | None => (PList [], [])
  | Some text =>
      match json_loads text with
      | Some (PDict data) => (default (PList []) (dict_get (py "history") data), [])
      | Some _ => (PList [], [st_warning_load AttributeError])
      | None => (PList [], [st_warning_load JSONDecodeError])
      end
  end.

(** The dict [append_message] appends. *)
Definition message (role text : pystr) (ts : float) : pyval :=
  PDict [(py "role", PStr role); (py "text", PStr text); (py "ts", PFloat ts)].

(** [history.append(...)]: only a list has the method. *)
Definition append_message (history : pyval) (role text : pystr) (now : float)
  : option pyval :=
  match history with
  | PList l => Some (PList (l ++ [message role text now]))
  | _ => None
  end.

(** ** main.py: the session and its three handlers *)

(** The first script run of a session. *)
Definition session_start (cfg : settings) (files : gmap string pystr) (now : nat)
  : state * list effect :=
  let '(h, log) :=
    if persist_to_disk cfg then load_history files PERSIST_FILE else (PList [], []) in
  ({| history := h; disk := files; tick := now |}, log).

(** The messages of the request: the system prompt, then
    [history[-24:]] turned into role and content. *)
Definition build_messages (system : pystr) (history : pyval) : option (list pyval) :=
  match history with
  | PList l =>
      rest ← mapM (λ h,
                r ← subscript h (py "role");
                t ← subscript h (py "text");
                Some (PDict [(py "role", r); (py "content", t)]))
             (drop (length l - 24) l);
      Some (PDict [(py "role", PStr (py "system")); (py "content", PStr system)] :: rest)
  | _ => None
  end.

Definition handle_send (w : world) (cfg : settings) (input : pystr) (st : state)
  : state * list effect :=
  match strip input with
  | [] => (st, [st_warning_empty])
  | user_input =>
    match append_message (history st) (py "user") user_input (clock w (tick st)) with
    | None => (st, [st_error_send AttributeError])
    | Some h1 =>
      match build_messages (persona_system (persona cfg)) h1 with
      | None =>
          ({| history := h1; disk := disk st; tick := 1 + tick st |},
           [st_error_send KeyOrTypeError])
      | Some messages =>
        let r := remote w (1 + tick st)%nat messages in
        match r with
        | api_raises =>
            ({| history := h1; disk := disk st; tick := 2 + tick st |},
             [completions_create messages r; st_error_send APIError])
        | api_returns None =>
            ({| history := h1; disk := disk st; tick := 2 + tick st |},
             [completions_create messages r; st_error_send AttributeError])
        | api_returns (Some content) =>
          match append_message h1 (py "assistant") (strip content)
                  (clock w (2 + tick st)%nat) with
          | None =>
              ({| history := h1; disk := disk st; tick := 2 + tick st |},
               [completions_create messages r; st_error_send AttributeError])
          | Some h2 =>
            if persist_to_disk cfg then
              let '(files, log) :=
                save_history (clock w (3 + tick st)%nat) h2 PERSIST_FILE (disk st) in
              ({| history := h2; disk := files; tick := 4 + tick st |},
               completions_create messages r :: log ++ [st_rerun])
            else
              ({| history := h2; disk := disk st; tick := 3 + tick st |},
               [completions_create messages r; st_rerun])
          end
        end
      end
    end
  end.

Definition handle_clear (cfg : settings) (st : state) : state * list effect :=
  ({| history := PList [];
      disk := if persist_to_disk cfg && bool_decide (is_Some (disk st !! PERSIST_FILE))
              then delete PERSIST_FILE (disk st) else disk st;
      tick := tick st |},
   [st_success_cleared; st_rerun]).

(** The dict the Export handler serialises. *)
Definition export_data (now : float) (cfg : settings) (history : pyval) : pyval :=
  PDict [(py "exported_at", PFloat now);
         (py "persona", PStr (persona_id (persona cfg)));
         (py "model", PStr (model cfg));
         (py "history", history)].

(** [st.download_button] takes the text as bytes, encoded in UTF-8; what
    that raises nothing catches, and the script run ends there. *)
Definition handle_export (w : world) (cfg : settings) (st : state) : state * list effect :=
  let json_str := json_dumps (export_data (clock w (tick st)) cfg (history st)) in
  ({| history := history st; disk := disk st; tick := 1 + tick st |},
   [if utf8_encodable json_str then st_download json_str
    else st_exception UnicodeEncodeError]).

(** One script run: the settings of the widgets and the button pressed. *)
Inductive action :=
| Send (input : pystr)
| Clear
| Export.

Definition handle (w : world) (cfg : settings) (a : action) (st : state)
  : state * list effect :=
  match a with
  | Send input => handle_send w cfg input st
  | Clear => handle_clear cfg st
  | Export => handle_export w cfg st
  end.

(** A session after its first run: one handler per script run. *)
Fixpoint run (w : world) (script : list (settings * action)) (st : state)
  : state * list effect :=
  match script with
  | [] => (st, [])
  | (cfg, a) :: rest =>
      let '(st1, log1) := handle w cfg a st in
      let '(st2, log2) := run w rest st1 in
      (st2, log1 ++ log2)
  end.

(** ** Conversations, as the specification types them *)

Inductive role := user | assistant.

Record Turn := {
  turn_role : role;
  turn_text : pystr;
  turn_ts : float;
}.

Definition role_str (r : role) : pystr :=
  match r with
  | user => py "user"
  | assistant => py "assistant"
  end.

Definition of_turn (t : Turn) : pyval :=
  message (role_str (turn_role t)) (turn_text t) (turn_ts t).

(** A conversation as the value the session holds. *)
Definition of_conversation (C : list Turn) : pyval := PList (of_turn <$> C).

(** ** Values the round trip is stated for *)

(** The text [json] emits for [x] is one number, and the scanner reads it
    back as [x]: Python's [float(repr(x)) == x], for every finite float. *)
Definition float_roundtrips (x : float) : Prop :=
  match_number (floatstr x) = Some (PFloat x, []).

(** A value Python can hold and [json] gives back: the keys of a dict are
    distinct, and the floats are finite. *)
Inductive py_ok : pyval → Prop :=
| ok_none : py_ok PNone
| ok_bool b : py_ok (PBool b)
| ok_int z : py_ok (PInt z)
| ok_float x : float_roundtrips x → py_ok (PFloat x)
| ok_str s : py_ok (PStr s)
| ok_list l : Forall py_ok l → py_ok (PList l)
| ok_dict d : NoDup d.*1 → Forall (λ kv, py_ok kv.2) d → py_ok (PDict d).

(** Every string of the value can be written to a UTF-8 file. *)
Fixpoint py_encodable (o : pyval) : bool :=
  match o with
  | PStr s => utf8_encodable s
  | PList l => forallb py_encodable l
  | PDict d =>
      forallb (λ kv, match kv with (k, v) => utf8_encodable k && py_encodable v end) d
  | _ => true
  end.

(** The number of values inside a value, itself included: the fuel that
    scanning its text takes. *)
Fixpoint py_size (o : pyval) : nat :=
  match o with
  | PList l => S (sum_list (map (λ v, S (py_size v)) l))
  | PDict d => S (sum_list (map (λ kv, match kv with (_, v) => S (py_size v) end) d))
  | _ => 1
  end.

(** What may follow a number in a text: nothing a number could go on with. *)
Definition is_number_char (c : N) : bool :=
  is_digit c || (c =? 46) || (c =? 101) || (c =? 69) || (c =? 43) || (c =? 45).

Definition number_end (rest : pystr) : Prop :=
  match rest with
  | [] => True
  | c :: _ => is_number_char c = false
  end.

(** A number starts with a digit, or with a minus sign and a digit. *)
Definition number_head (s : pystr) : Prop :=
  match s with
  | c :: r =>
      is_digit c = true
      ∨ (c = 45 ∧ match r with d :: _ => is_digit d = true | [] => False end)
  | [] => False
  end.

(** The request, for a typed conversation. *)
Definition system_message (system : pystr) : pyval :=
  PDict [(py "role", PStr (py "system")); (py "content", PStr system)].

Definition turn_message (t : Turn) : pyval :=
  PDict [(py "role", PStr (role_str (turn_role t))); (py "content", PStr (turn_text t))].

(** [history[-24:]] of a conversation, behind the system prompt. *)
Definition prompt (cfg : settings) (C : list Turn) : list pyval :=
  system_message (persona_system (persona cfg))
  :: (turn_message <$> drop (length C - 24) C).

(** The turns a Send appends. *)
Definition user_turn (w : world) (input : pystr) (st : state) : Turn :=
  {| turn_role := user; turn_text := strip input; turn_ts := clock w (tick st) |}.

Definition assistant_turn (w : world) (content : pystr) (st : state) : Turn :=
  {| turn_role := assistant; turn_text := strip content;
     turn_ts := clock w (2 + tick st) |}.

(** Remote calls in a log: those that gave a reply, and those that failed
    (the call raised, or the response carried no text). *)
Definition is_reply (e : effect) : bool :=
  match e with
  | completions_create _ (api_returns (Some _)) => true
  | _ => false
  end.

Definition is_failed_call (e : effect) : bool :=
  match e with
  | completions_create _ api_raises | completions_create _ (api_returns None) => true
  | _ => false
  end.

Definition replies (log : list effect) : nat := length (List.filter is_reply log).
Definition failed_calls (log : list effect) : nat := length (List.filter is_failed_call log).

(** ** A sequence of Sends, as the specification words it *)

(** The remote service gave a reply. *)
Definition answered (r : completion) : bool :=
  match r with
  | api_returns (Some _) => true
  | _ => false
  end.

(** One Send on a conversation, at an instant: the user turn is appended,
    stamped at that instant; the remote service is asked at the next one,
    with the prompt of the conversation so extended; when it gives a reply,
    the reply is appended as the assistant turn, stamped after the call.
    With the conversation come what the service answered and the instant
    at which the Send is over, one later when the conversation is saved. *)
Definition spec_send (w : world) (cfg : settings) (input : pystr) (C : list Turn)
    (now : nat) : list Turn * completion * nat :=
  let C1 :=
    C ++ [{| turn_role := user; turn_text := strip input; turn_ts := clock w now |}] in
  let r := remote w (1 + now) (prompt cfg C1) in
  match r with
  | api_returns (Some content) =>
      (C1 ++ [{| turn_role := assistant; turn_text := strip content;
                 turn_ts := clock w (2 + now) |}],
       r, (if persist_to_disk cfg then 4 else 3) + now)%nat
  | _ => (C1, r, 2 + now)%nat
  end.

(** The Sends of a sequence, one after the other: the conversation at the
    end, and what the service answered to each. *)
Fixpoint spec_sends (w : world) (sends : list (settings * pystr)) (C : list Turn)
    (now : nat) : list Turn * list completion :=
  match sends with
  | [] => (C, [])
  | (cfg, input) :: rest =>
      let '(C1, r, now1) := spec_send w cfg input C now in
      let '(C', answers) := spec_sends w rest C1 now1 in
      (C', r :: answers)
  end.

(** The first character of the text of a value. *)
Definition value_head (c : N) : bool :=
  (c =? 34) || (c =? 91) || (c =? 123) || (c =? 110) || (c =? 116) || (c =? 102)
  || is_digit c || (c =? 45).

(** A scanner that reads the text of [v] at a nesting level back as [v]. *)
Definition scans (scan : pystr → option (pyval * pystr)) (level : nat) (v : pyval)
  : Prop :=
  ∀ rest, number_end rest → scan (encode level v ++ rest) = Some (v, rest).

(** A decimal numeral that starts with a digit from 1 to 9. *)
Definition nonzero_head (d : Decimal.uint) : bool :=
  match d with
  | Nil | D0 _ => false
  | _ => true
  end.

(** Timestamps never decrease along a conversation. *)
Definition timestamps_sorted (C : list Turn) : Prop :=
  ∀ i j a b, (i < j)%nat → C !! i = Some a → C !! j = Some b →
    float_le (turn_ts a) (turn_ts b).

(** The dict [save_history] writes. *)
Definition snapshot (now : float) (history : pyval) : pyval :=
  PDict [(py "saved_at", PFloat now); (py "history", history)].

End Model.

(** ** More of the handlers: what they do on any state *)

Section Handlers.
Context {PF : PyFloat}.

(** A turn the request can be built from: [h["role"]] and [h["text"]]
    both answer. *)
Definition turn_like (h : pyval) : bool :=
  match subscript h (py "role"), subscript h (py "text") with
  | Some _, Some _ => true
  | _, _ => false
  end.

(** The user message a Send appends. *)
Definition user_message (w : world) (input : pystr) (st : state) : pyval :=
  message (py "user") (strip input) (clock w (tick st)).

(** [history[-24:]] once the user message is appended. *)
Definition window (l : list pyval) (u : pyval) : list pyval :=
  drop (length (l ++ [u]) - 24) (l ++ [u]).

Definition is_list (o : pyval) : bool :=
  match o with
  | PList _ => true
  | _ => false
  end.

Definition is_send (a : action) : bool :=
  match a with
  | Send _ => true
  | _ => false
  end.

Definition is_clear (a : action) : bool :=
  match a with
  | Clear => true
  | _ => false
  end.

(** Every assistant turn comes right after a user turn: [prev_user] tells
    whether the turn before the list was a user turn. *)
Fixpoint replies_follow (prev_user : bool) (C : list Turn) : bool :=
  match C with
  | [] => true
  | t :: r =>
      match turn_role t with
      | user => replies_follow true r
      | assistant => prev_user && replies_follow false r
      end
  end.

(** The text of a turn as [strip] leaves it, and not empty when the user
    wrote it. *)
Definition trimmed (t : Turn) : Prop :=
  strip (turn_text t) = turn_text t ∧ (turn_role t = user → turn_text t ≠ []).

(** What is left of a text after a value tells where the value ends: after
    a number, a character that no number goes on with. *)
Definition delimited (v : pyval) (r : pystr) : Prop :=
  match v with
  | PInt _ | PFloat _ =>
      match r with
      | c :: _ => is_number_char c = false
      | [] => False
      end
  | _ => True
  end.

(** A scanner that reads a delimited value the same when the text goes on
    with [q]. *)
Definition reads_on (scan : pystr → option (pyval * pystr)) (q : pystr) : Prop :=
  scan [] = None
  ∧ ∀ p v r, scan p = Some (v, r) → delimited v r → scan (p ++ q) = Some (v, r ++ q).

End Handlers.


(** ** main.py: the conversation on the page *)

(** What showing a history needs to know of floats and of the calendar. *)
Class PyTime {PF : PyFloat} := {
  (** [bool(x)]: false for a zero only *)
  float_bool : float → bool;
  (** [time.strftime("%Y-%m-%d %H:%M:%S", time.localtime(t))] for an int
      and for a float; nothing when [time.localtime] raises
      ([OverflowError], [OSError], [ValueError]) *)
  strftime_int : Z → option pystr;
  strftime_float : float → option pystr;
}.

(** What [st.write] does with a value: it returns, or it raises
    [UnicodeEncodeError] when the page cannot take the text it shows. A
    string is shown as it is, and goes through when UTF-8 can encode it. *)
Class StWrite {PF : PyFloat} := {
  st_write_returns : pyval → bool;
  st_write_str (s : pystr) : st_write_returns (PStr s) = utf8_encodable s;
}.

Section Page.
Context {PF : PyFloat} {PT : PyTime} {SW : StWrite}.

(** [PERSONAS[k]["name"]] *)
Definition persona_name (k : persona_key) : pystr :=
  match k with
  | RoastBot => py "RoastBot"
  | ShakespeareBot => py "ShakespeareBot"
  | EmojiBot => py "EmojiBot"
  end.

(** What the script puts on the page around the conversation. *)
Inductive widget :=
| st_info (body : pystr)
| st_markdown (body : pystr) (unsafe_allow_html : bool)
| st_write (v : pyval)
| st_json (v : pyval).

(** The exceptions nothing catches: they end the script run. *)
Inductive uncaught :=
| raise_TypeError
| raise_AttributeError
| raise_UnicodeEncodeError
| raise_from_localtime.

(** [bool(o)], as [not history] takes it. *)
Definition truthy (o : pyval) : bool :=
  match o with
  | PNone => false
  | PBool b => b
  | PInt z => negb (z =? 0)%Z
  | PFloat x => float_bool x
  | PStr [] | PList [] | PDict [] => false
  | PStr _ | PList _ | PDict _ => true
  end.

(** [for msg in o]: the items of a list, the characters of a string, the
    keys of a dict; nothing else can be iterated. *)
Definition iterate (o : pyval) : option (list pyval) :=
  match o with
  | PList l => Some l
  | PStr s => Some ((λ c, PStr [c]) <$> s)
  | PDict d => Some (PStr <$> d.*1)
  | _ => None
  end.

Definition is_dict (o : pyval) : bool :=
  match o with
  | PDict _ => true
  | _ => false
  end.

(** [role == "user"] *)
Definition is_user_role (role : pyval) : bool :=
  match role with
  | PStr s => bool_decide (s = py "user")
  | _ => false
  end.

(** [time.strftime(fmt, time.localtime(t))] at instant [i]: [None] asks
    the clock, a bool is an int, and anything but a number is refused. *)
Definition strftime_localtime (w : world) (i : nat) (t : pyval)
  : (pystr + uncaught) * nat :=
  let answer (o : option pystr) :=
    match o with
    | Some s => inl s
    | None => inr raise_from_localtime
    end in
  match t with
  | PNone => (answer (strftime_float (clock w i)), S i)
  | PBool b => (answer (strftime_int (if b then 1 else 0)), i)
  | PInt z => (answer (strftime_int z), i)
  | PFloat x => (answer (strftime_float x), i)
  | _ => (inr raise_TypeError, i)
  end.

Definition NO_MESSAGES : pystr := py "No messages yet. Type something below to start!".

(** The line above a message: the two f-strings of [render_chat] differ in
    the name only. The dot is U+00B7. *)
Definition header (who ts : pystr) : pystr :=
  py "**" ++ who ++ py "**  <span style='color:gray;font-size:0.8rem'>"
  ++ [183; 32] ++ ts ++ py "</span>".

(** The body of the loop of [render_chat], message by message: what is
    shown, the exception that ended it if one did, and the instant. When
    [st.write] raises, the header of the message is already on the page. *)
Fixpoint render_loop (w : world) (persona_name : pystr) (msgs : list pyval) (i : nat)
  : list widget * option uncaught * nat :=
  match msgs with
  | [] => ([], None, i)
  | PDict d :: rest =>
      let role := default (PStr (py "user")) (dict_get (py "role") d) in
      let text := default (PStr []) (dict_get (py "text") d) in
      match strftime_localtime w i (default (PInt 0) (dict_get (py "ts") d)) with
      | (inr e, j) => ([], Some e, j)
      | (inl ts, j) =>
          let head :=
            st_markdown (header (if is_user_role role then py "You" else persona_name) ts)
              true in
          if st_write_returns text then
            let '(shown, e, k) := render_loop w persona_name rest j in
            (head :: st_write text :: st_markdown (py "---") false :: shown, e, k)
          else ([head], Some raise_UnicodeEncodeError, j)
      end
  | _ :: _ => ([], Some raise_AttributeError, i)
  end.

Definition render_chat (w : world) (i : nat) (history : pyval) (persona_name : pystr)
  : list widget * option uncaught * nat :=
  if truthy history then
    match iterate history with
    | Some msgs => render_loop w persona_name msgs i
    | None => ([], Some raise_TypeError, i)
    end
  else ([st_info NO_MESSAGES], None, i).

(** One script run after the first: the conversation is shown, with the
    raw history under it when the debug box is checked, and then the
    handler of the button pressed runs, if one was. An exception of
    [render_chat] ends the run before the buttons. *)
Definition script_run (w : world) (cfg : settings) (show_raw : bool)
    (pressed : option action) (st : state)
  : state * (list widget * option uncaught) * list effect :=
  match render_chat w (tick st) (history st) (persona_name (persona cfg)) with
  | (shown, Some e, i) =>
      ({| history := history st; disk := disk st; tick := i |}, (shown, Some e), [])
  | (shown, None, i) =>
      let st0 := {| history := history st; disk := disk st; tick := i |} in
      let page := shown ++ (if show_raw then [st_json (history st)] else []) in
      match pressed with
      | None => (st0, (page, None), [])
      | Some a => let '(st1, log) := handle w cfg a st0 in (st1, (page, None), log)
      end
  end.

(** The script runs of a session, one after the other. *)
Fixpoint script_runs (w : world) (script : list (settings * bool * option action))
    (st : state)
  : state * list (list widget * option uncaught * list effect) :=
  match script with
  | [] => (st, [])
  | (cfg, show_raw, pressed) :: rest =>
      let '(st1, page, log) := script_run w cfg show_raw pressed st in
      let '(st2, outs) := script_runs w rest st1 in
      (st2, (page, log) :: outs)
  end.

(** The runs in which a button was pressed. *)
Definition pressed_buttons (script : list (settings * bool * option action))
  : list (settings * action) :=
  omap (λ run, match run with (cfg, _, pressed) => (λ a, (cfg, a)) <$> pressed end) script.

(** A history [render_chat] cannot get through at any instant: something
    true that is not a list, or a list with an entry that is not a dict. *)
Definition unrenderable (h : pyval) : bool :=
  truthy h && match h with
              | PList l => negb (forallb is_dict l)
              | _ => true
              end.

(** What [render_chat] shows of one turn, given its time stamp as text. *)
Definition turn_widgets (persona_name : pystr) (t : Turn) (stamp : pystr) : list widget :=
  [st_markdown (header (match turn_role t with
                        | user => py "You"
                        | assistant => persona_name
                        end) stamp) true;
   st_write (PStr (turn_text t));
   st_markdown (py "---") false].

End Page.
(** ** A float type to run examples on

    Whole seconds: the floats [0.0], [1.0], [2.0], ... with the texts Python
    prints for them below [1e16]; [float(s)] reads the integer part of a
    literal, which is all of it for these. *)
Definition whole_seconds : PyFloat :=
  {| float := N;
     floatstr n := uint_str (N.to_uint n) ++ py ".0";
     float_of_str s := N.of_uint (str_uint (span_digits s).1);
     float_le := N.le |}.

#[local] Existing Instance whole_seconds.

Definition example_settings : settings :=
  {| model := DEFAULT_MODEL; persist_to_disk := true; persona := RoastBot |}.

(** A clock that ticks once per reading, and a service that answers the
    first calls and then fails. *)
Definition example_world : world :=
  {| clock n := N.of_nat (100 + n);
     remote n _ :=
       if (n <? 4)%nat then api_returns (Some (py " Hello there. ")) else api_raises |}.

Definition example_start : state :=
  {| history := PList []; disk := ∅; tick := 0 |}.

Definition example_conversation : list Turn :=
  [ {| turn_role := user; turn_text := py "hi"; turn_ts := 3 |};
    {| turn_role := assistant; turn_text := py "Hello there."; turn_ts := 4 |} ].

Definition example_session : state :=
  {| history := of_conversation example_conversation; disk := ∅; tick := 0 |}.

(** A conversation whose one text is a lone surrogate (U+D800). *)
Definition surrogate_conversation : list Turn :=
  [ {| turn_role := user; turn_text := [55296]; turn_ts := 1 |} ].

(** A file that is JSON but not a snapshot. *)
Definition history_is_five : pystr := pyq "{'history': 5}".

(** A file in the shape of a snapshot whose timestamps go back. *)
Definition unsorted_snapshot : pystr :=
  pyq "{'saved_at': 9.0, 'history': [{'role': 'user', 'text': 'a', 'ts': 2.0}, {'role': 'assistant', 'text': 'b', 'ts': 1.0}]}".

Definition unsorted_conversation : list Turn :=
  [ {| turn_role := user; turn_text := py "a"; turn_ts := 2 |};
    {| turn_role := assistant; turn_text := py "b"; turn_ts := 1 |} ].

(** ** A calendar to run examples on

    UTC, for the instants from 1970 on: the date of a day number by the
    usual count of 400-year eras from 1 March 0000. *)
Definition pad (width : nat) (n : N) : pystr :=
  let digits := uint_str (N.to_uint n) in
  replicate (width - length digits) 48 ++ digits.

Definition utc_strftime (n : N) : pystr :=
  let secs := n mod 86400 in
  let z := n / 86400 + 719468 in
  let era := z / 146097 in
  let doe := z mod 146097 in
  let yoe := (doe + doe / 36524 - doe / 1460 - doe / 146096) / 365 in
  let doy := doe + yoe / 100 - 365 * yoe - yoe / 4 in
  let mp := (5 * doy + 2) / 153 in
  let d := doy + 1 - (153 * mp + 2) / 5 in
  let m := if mp <? 10 then mp + 3 else mp - 9 in
  let y := yoe + era * 400 + (if m <=? 2 then 1 else 0) in
  pad 4 y ++ py "-" ++ pad 2 m ++ py "-" ++ pad 2 d ++ py " "
  ++ pad 2 (secs / 3600) ++ py ":" ++ pad 2 (secs mod 3600 / 60) ++ py ":"
  ++ pad 2 (secs mod 60).

(** On whole seconds; an instant before 1970 is refused, as some platforms
    do. *)
Definition utc_calendar : PyTime :=
  {| float_bool n := negb (n =? 0);
     strftime_int z := if (0 <=? z)%Z then Some (utc_strftime (Z.to_N z)) else None;
     strftime_float n := Some (utc_strftime n) |}.

#[local] Existing Instance utc_calendar.

(** A page that takes every value whose strings UTF-8 can encode. *)
Definition utf8_page : StWrite :=
  {| st_write_returns := py_encodable; st_write_str s := eq_refl |}.

#[local] Existing Instance utf8_page.

Definition settings_without_persistence : settings :=
  {| model := DEFAULT_MODEL; persist_to_disk := false; persona := EmojiBot |}.

(** A session whose conversation is also in the file, at a time when the
    service no longer answers. *)
Definition example_saved_session : state :=
  {| history := of_conversation example_conversation;
     disk := {[ PERSIST_FILE := json_dumps (snapshot 5 (of_conversation example_conversation)) ]};
     tick := 5 |}.

(** A session that took the number of [history_is_five] for its history. *)
Definition session_on_five : state :=
  {| history := PInt 5; disk := {[ PERSIST_FILE := history_is_five ]}; tick := 0 |}.

(** A session whose history is the empty dict, as a file with an empty
    object under the history key gives it. *)
Definition session_on_empty_dict : state :=
  {| history := PDict []; disk := ∅; tick := 0 |}.

Definition example_stamps : list pystr :=
  [py "1970-01-01 00:00:03"; py "1970-01-01 00:00:04"].

(** * Proofs *)

Section Proofs.
Context {PF : PyFloat}.

Lemma pyval_ind_nested (P : pyval → Prop) :
  P PNone → (∀ b, P (PBool b)) → (∀ z, P (PInt z)) → (∀ x, P (PFloat x)) →
  (∀ s, P (PStr s)) →
  (∀ l, Forall P l → P (PList l)) →
  (∀ d, Forall (λ kv, P kv.2) d → P (PDict d)) →
  ∀ v, P v.
Proof.
  intros HN HB HI HF HS HL HD. fix IH 1.
  intros [| | | | |l|d]; [apply HN|apply HB|apply HI|apply HF|apply HS| |].
  - apply HL. induction l as [|x l IHl]; constructor; [apply IH|apply IHl].
  - apply HD. induction d as [|[k x] d IHd]; constructor; [apply IH|apply IHd].
Qed.

(** *** [str.strip] *)

Lemma lstrip_all_space s : forallb isspace s = true → lstrip s = [].
Proof.
  induction s as [|c s IH]; simpl; [done|].
  intros [Hc Hs]%andb_prop. rewrite Hc. auto.
Qed.

Lemma strip_all_space s : forallb isspace s = true → strip s = [].
Proof. intros H. unfold strip. by rewrite (lstrip_all_space _ H). Qed.

(** *** String literals *)

Lemma hexval_hexdigit n : n < 16 → hexval (hexdigit n) = Some n.
Proof.
  intros H. destruct n as [|p]; [done|].
  do 4 (destruct p as [p|p|]; try done; try lia).
Qed.

Lemma hex4_hexdigits c s :
  c < 256 →
  hex4 (48 :: 48 :: hexdigit (c / 16) :: hexdigit (c mod 16) :: s) = Some (c, s).
Proof.
  intros Hc. unfold hex4.
  rewrite !hexval_hexdigit by (try apply N.mod_lt; try apply N.Div0.div_lt_upper_bound; lia).
  simpl. do 2 f_equal. rewrite (N.div_mod c 16) at 3 by lia. lia.
Qed.

Lemma scanstring_escape_char c n s :
  scanstring (S n) (escape_char c ++ s) = prepend c (scanstring n s).
Proof.
  unfold escape_char.
  destruct (N.eqb_spec c 34) as [->|?]; [done|].
  destruct (N.eqb_spec c 92) as [->|?]; [done|].
  destruct (N.eqb_spec c 10) as [->|?]; [done|].
  destruct (N.eqb_spec c 13) as [->|?]; [done|].
  destruct (N.eqb_spec c 9) as [->|?]; [done|].
  destruct (N.eqb_spec c 8) as [->|?]; [done|].
  destruct (N.eqb_spec c 12) as [->|?]; [done|].
  destruct (N.ltb_spec c 32) as [Hc|Hc].
  - cbn [app scanstring]. change (92 =? 34) with false. change (92 =? 92) with true.
    change (117 =? 117) with true. cbv iota.
    rewrite hex4_hexdigits by lia. cbn [mbind option_bind].
    replace (is_high_surrogate c) with false; [done|].
    unfold is_high_surrogate. symmetry. apply andb_false_intro1, N.leb_gt. lia.
  - cbn [app scanstring].
    destruct (N.eqb_spec c 34); [done|]. destruct (N.eqb_spec c 92); [done|].
    destruct (N.ltb_spec c 32); [lia|done].
Qed.

Lemma scanstring_encode t : ∀ n rest,
  (length t < n)%nat →
  scanstring n (flat_map escape_char t ++ 34 :: rest) = Some (t, rest).
Proof.
  induction t as [|c t IH]; intros [|n] rest Hn; simpl in Hn; try lia.
  - done.
  - cbn [flat_map]. rewrite <- app_assoc, scanstring_escape_char, IH by lia. done.
Qed.

Lemma length_escape t : (length t ≤ length (flat_map escape_char t))%nat.
Proof.
  induction t as [|c t IH]; [done|]. cbn [flat_map]. rewrite length_app. simpl.
  assert (1 ≤ length (escape_char c))%nat; [|lia].
  unfold escape_char. repeat case_match; simpl; lia.
Qed.

Lemma scan_str_encode t rest :
  scan_str (flat_map escape_char t ++ 34 :: rest) = Some (t, rest).
Proof.
  unfold scan_str. apply scanstring_encode. rewrite length_app. simpl.
  pose proof (length_escape t). lia.
Qed.

(** *** The fuel of the scanner is never what makes it fail *)

Lemma hex4_length s u r : hex4 s = Some (u, r) → length s = (4 + length r)%nat.
Proof.
  destruct s as [|a [|b [|c [|d s]]]]; try done. unfold hex4.
  destruct (hexval a), (hexval b), (hexval c), (hexval d); try done.
  simpl. by intros [= _ <-].
Qed.

Lemma prepend_transfer c (a b : option (pystr * pystr)) x :
  prepend c a = Some x → (∀ y, a = Some y → b = Some y) → prepend c b = Some x.
Proof.
  unfold prepend. destruct a as [y|]; [|done]. intros H Hab. by rewrite (Hab y eq_refl).
Qed.

Lemma scanstring_step n m s x :
  scanstring (S n) s = Some x →
  (∀ r y, (length r < length s)%nat → scanstring n r = Some y → scanstring m r = Some y) →
  scanstring (S m) s = Some x.
Proof.
  intros H Hrec. destruct s as [|c r]; [done|]. cbn [scanstring] in *.
  destruct (c =? 34); [done|]. destruct (c =? 92).
  - destruct r as [|e r1]; [done|]. destruct (e =? 117).
    + destruct (hex4 r1) as [[u r2]|] eqn:E1; [|done]. cbn [mbind option_bind] in *.
      apply hex4_length in E1.
      assert (prepend u (scanstring n r2) = Some x → prepend u (scanstring m r2) = Some x)
        as Hplain.
      { intros H'. eapply prepend_transfer; [exact H'|].
        intros y Hy. apply Hrec; [simpl; lia|done]. }
      destruct (is_high_surrogate u); [|by apply Hplain].
      destruct r2 as [|a [|b r3]]; try by apply Hplain.
      destruct ((a =? 92) && (b =? 117)); [|by apply Hplain].
      destruct (hex4 r3) as [[u2 r4]|] eqn:E2; [|done]. cbn [mbind option_bind] in *.
      apply hex4_length in E2.
      destruct (is_low_surrogate u2); [|by apply Hplain].
      eapply prepend_transfer; [exact H|].
      intros y Hy. apply Hrec; [simpl in *; lia|done].
    + destruct (unescape e) as [u|]; [|done]. cbn [mbind option_bind] in *.
      eapply prepend_transfer; [exact H|].
      intros y Hy. apply Hrec; [simpl; lia|done].
  - destruct (c <? 32); [done|].
    eapply prepend_transfer; [exact H|].
    intros y Hy. apply Hrec; [simpl; lia|done].
Qed.

Lemma scanstring_mono n : ∀ m s x,
  (n ≤ m)%nat → scanstring n s = Some x → scanstring m s = Some x.
Proof.
  induction n as [|n IH]; intros [|m] s x Hnm H; try done; [lia|].
  eapply scanstring_step; [exact H|]. intros r y _ Hy. apply IH; [lia|done].
Qed.

Lemma scanstring_enough k : ∀ s n x,
  (length s ≤ k)%nat → scanstring n s = Some x → scanstring (length s) s = Some x.
Proof.
  induction k as [|k IH]; intros s [|n] x Hk H; try done.
  - destruct s; [done|simpl in Hk; lia].
  - destruct s as [|c r]; [done|]. cbn [length] in *.
    eapply scanstring_step; [exact H|]. cbn [length].
    intros r' y Hr' Hy. eapply scanstring_mono; [|eapply IH; [|exact Hy]]; lia.
Qed.

Lemma scanstring_length n : ∀ s t r,
  scanstring n s = Some (t, r) → (length r < length s)%nat.
Proof.
  induction n as [|n IH]; intros s t r H; [done|].
  destruct s as [|c s]; [done|]. cbn [scanstring] in H.
  assert (∀ u s', prepend u (scanstring n s') = Some (t, r) →
                  (length s' ≤ length s)%nat → (length r < length (c :: s))%nat)
    as Hplain.
  { intros u s' H' Hs'. unfold prepend in H'.
    destruct (scanstring n s') as [[t' r']|] eqn:E; [|done]. injection H' as _ <-.
    apply IH in E. simpl. lia. }
  destruct (c =? 34); [injection H as _ <-; simpl; lia|]. destruct (c =? 92).
  - destruct s as [|e r1]; [done|]. destruct (e =? 117).
    + destruct (hex4 r1) as [[u r2]|] eqn:E1; [|done]. cbn [mbind option_bind] in *.
      apply hex4_length in E1.
      destruct (is_high_surrogate u);
        [|eapply Hplain; [exact H|]; simpl in *; lia].
      destruct r2 as [|a [|b r3]];
        try (eapply Hplain; [exact H|]; simpl in *; lia).
      destruct ((a =? 92) && (b =? 117));
        [|eapply Hplain; [exact H|]; simpl in *; lia].
      destruct (hex4 r3) as [[u2 r4]|] eqn:E2; [|done]. cbn [mbind option_bind] in *.
      apply hex4_length in E2.
      destruct (is_low_surrogate u2); (eapply Hplain; [exact H|]; simpl in *; lia).
    + destruct (unescape e) as [u|]; [|done]. cbn [mbind option_bind] in *.
      eapply Hplain; [exact H|]; simpl in *; lia.
  - destruct (c <? 32); [done|]. eapply Hplain; [exact H|]; simpl in *; lia.
Qed.

(** *** Numbers *)

Lemma number_char_false c :
  is_number_char c = false →
  is_digit c = false ∧ c ≠ 46 ∧ c ≠ 101 ∧ c ≠ 69 ∧ c ≠ 43 ∧ c ≠ 45.
Proof.
  unfold is_number_char. rewrite !orb_false_iff, !N.eqb_neq. tauto.
Qed.

Lemma is_digit_bounds c : is_digit c = true ↔ 48 ≤ c ≤ 57.
Proof. unfold is_digit. rewrite andb_true_iff, !N.leb_le. tauto. Qed.

Lemma span_digits_end rest : number_end rest → span_digits rest = ([], rest).
Proof.
  destruct rest as [|c r]; simpl; [done|].
  intros (-> & _)%number_char_false. done.
Qed.

Lemma span_digits_app s rest ds r :
  span_digits s = (ds, r) → number_end rest →
  span_digits (s ++ rest) = (ds, r ++ rest).
Proof.
  revert ds r. induction s as [|c s IH]; intros ds r H Hrest; simpl in *.
  - injection H as <- <-. by apply span_digits_end.
  - destruct (is_digit c); [|by injection H as <- <-].
    destruct (span_digits s) as [ds' r'] eqn:E. injection H as <- <-.
    by rewrite (IH _ _ eq_refl Hrest).
Qed.

Lemma span_digits_spec s ds r :
  span_digits s = (ds, r) → s = ds ++ r ∧ forallb is_digit ds = true.
Proof.
  revert ds r. induction s as [|c s IH]; intros ds r H; simpl in *.
  - by injection H as <- <-.
  - destruct (is_digit c) eqn:Ec; [|by injection H as <- <-].
    destruct (span_digits s) as [ds' r'] eqn:E. injection H as <- <-.
    destruct (IH _ _ eq_refl) as [-> Hd]. simpl. by rewrite Ec, Hd.
Qed.

Lemma number_sign_app s rest :
  number_end rest →
  number_sign (s ++ rest) = ((number_sign s).1, (number_sign s).2 ++ rest).
Proof.
  intros Hrest. destruct s as [|c s]; simpl.
  - destruct rest as [|c r]; simpl in *; [done|].
    apply number_char_false in Hrest as (_ & _ & _ & _ & _ & H45).
    by destruct (N.eqb_spec c 45).
  - by destruct (c =? 45).
Qed.

Lemma number_int_app s rest m r :
  number_int s = Some (m, r) → number_end rest →
  number_int (s ++ rest) = Some (m, r ++ rest).
Proof.
  intros H Hrest. destruct s as [|c s]; simpl in *; [done|].
  destruct (c =? 48); [by injection H as <- <-|].
  destruct (is_digit c); [|done].
  destruct (span_digits s) as [ds r'] eqn:E. injection H as <- <-.
  by rewrite (span_digits_app _ _ _ _ E Hrest).
Qed.

Lemma number_frac_app s rest :
  number_end rest →
  number_frac (s ++ rest) = ((number_frac s).1, (number_frac s).2 ++ rest).
Proof.
  intros Hrest. destruct s as [|d [|c s]]; simpl.
  - destruct rest as [|d [|c r]]; simpl in *; try done.
    apply number_char_false in Hrest as (_ & H46 & _).
    by destruct (N.eqb_spec d 46).
  - destruct rest as [|c r]; simpl in *; [done|].
    apply number_char_false in Hrest as (-> & _). by rewrite andb_false_r.
  - destruct ((d =? 46) && is_digit c); [|done].
    destruct (span_digits s) as [ds r'] eqn:E.
    by rewrite (span_digits_app _ _ _ _ E Hrest).
Qed.

Lemma number_exp_app s rest :
  number_end rest →
  number_exp (s ++ rest) = ((number_exp s).1, (number_exp s).2 ++ rest).
Proof.
  intros Hrest. destruct s as [|e s]; simpl.
  - destruct rest as [|e r]; simpl in *; [done|].
    apply number_char_false in Hrest as (_ & _ & H101 & H69 & _).
    destruct (N.eqb_spec e 101); [done|]. by destruct (N.eqb_spec e 69).
  - destruct ((e =? 101) || (e =? 69)); [|done].
    assert (∃ sg r1,
      match s with
      | c :: r' => if (c =? 43) || (c =? 45) then ([c], r') else ([], s)
      | [] => ([], s)
      end = (sg, r1) ∧
      match s ++ rest with
      | c :: r' => if (c =? 43) || (c =? 45) then ([c], r') else ([], s ++ rest)
      | [] => ([], s ++ rest)
      end = (sg, r1 ++ rest)) as (sg & r1 & -> & ->).
    { destruct s as [|c s]; simpl.
      - exists [], []. split; [done|]. destruct rest as [|c r]; simpl in *; [done|].
        apply number_char_false in Hrest as (_ & _ & _ & _ & H43 & H45).
        destruct (N.eqb_spec c 43); [done|]. by destruct (N.eqb_spec c 45).
      - destruct ((c =? 43) || (c =? 45)); eauto. }
    destruct (span_digits r1) as [ds r2] eqn:E.
    rewrite (span_digits_app _ _ _ _ E Hrest). by destruct ds.
Qed.

Lemma match_number_app s rest v r :
  match_number s = Some (v, r) → number_end rest →
  match_number (s ++ rest) = Some (v, r ++ rest).
Proof.
  unfold match_number. intros H Hrest.
  rewrite (number_sign_app _ _ Hrest). destruct (number_sign s) as [neg s1]. simpl in *.
  destruct (number_int s1) as [[ip s2]|] eqn:E; [|done].
  rewrite (number_int_app _ _ _ _ E Hrest). simpl in *.
  rewrite (number_frac_app _ _ Hrest). destruct (number_frac s2) as [frac s3]. simpl.
  rewrite (number_exp_app _ _ Hrest). destruct (number_exp s3) as [exp s4]. simpl.
  destruct frac, exp; by injection H as <- <-.
Qed.

Lemma digit_number_char c : is_digit c = true → is_number_char c = true.
Proof. unfold is_number_char. by intros ->. Qed.

Lemma digits_number_chars ds :
  forallb is_digit ds = true → forallb is_number_char ds = true.
Proof.
  induction ds as [|c ds IH]; simpl; [done|].
  intros [Hc Hds]%andb_prop. by rewrite (digit_number_char _ Hc), IH.
Qed.

Lemma number_int_spec s m r :
  number_int s = Some (m, r) →
  s = m ++ r ∧ forallb is_digit m = true
  ∧ match m with c :: _ => is_digit c = true | [] => False end.
Proof.
  intros H. destruct s as [|c s]; simpl in *; [done|].
  destruct (N.eqb_spec c 48) as [->|_]; [by injection H as <- <-|].
  destruct (is_digit c) eqn:Ec; [|done].
  destruct (span_digits s) as [ds r'] eqn:E. injection H as <- <-.
  destruct (span_digits_spec _ _ _ E) as [-> Hd]. simpl. by rewrite Ec, Hd.
Qed.

Lemma number_frac_spec s :
  s = (number_frac s).1 ++ (number_frac s).2
  ∧ forallb is_number_char (number_frac s).1 = true.
Proof.
  destruct s as [|d [|c s]]; simpl; try done.
  destruct (N.eqb_spec d 46) as [->|_]; simpl; [|done].
  destruct (is_digit c) eqn:Ec; [|done].
  destruct (span_digits s) as [ds r'] eqn:E.
  destruct (span_digits_spec _ _ _ E) as [-> Hd]. simpl.
  by rewrite (digit_number_char _ Ec), (digits_number_chars _ Hd).
Qed.

Lemma number_exp_spec s :
  s = (number_exp s).1 ++ (number_exp s).2
  ∧ forallb is_number_char (number_exp s).1 = true.
Proof.
  destruct s as [|e s]; simpl; [done|].
  destruct ((e =? 101) || (e =? 69)) eqn:Ee; [|done].
  assert (is_number_char e = true) as He.
  { unfold is_number_char. apply orb_prop in Ee as [->| ->]; by rewrite ?orb_true_r. }
  assert (∃ sg r1,
    match s with
    | c :: r' => if (c =? 43) || (c =? 45) then ([c], r') else ([], s)
    | [] => ([], s)
    end = (sg, r1) ∧ s = sg ++ r1 ∧ forallb is_number_char sg = true)
    as (sg & r1 & -> & -> & Hsg).
  { destruct s as [|c s]; [by exists [], []|].
    destruct ((c =? 43) || (c =? 45)) eqn:Ec; [|by exists [], (c :: s)].
    exists [c], s. repeat split. simpl. unfold is_number_char.
    apply orb_prop in Ec as [->| ->]; by rewrite ?orb_true_r. }
  destruct (span_digits r1) as [ds r2] eqn:E.
  destruct (span_digits_spec _ _ _ E) as [-> Hd].
  destruct ds as [|d ds]; [done|]. cbn [fst snd]. split.
  - by rewrite (app_assoc sg), app_comm_cons.
  - cbn [forallb]. rewrite He, forallb_app, Hsg. simpl.
    exact (digits_number_chars _ Hd).
Qed.

Lemma match_number_spec s v r :
  match_number s = Some (v, r) →
  number_head s ∧ ∃ m, s = m ++ r ∧ forallb is_number_char m = true.
Proof.
  unfold match_number. intros H.
  assert (s = (if (number_sign s).1 then [45] else []) ++ (number_sign s).2) as Hs.
  { destruct s as [|c s]; simpl; [done|]. by destruct (N.eqb_spec c 45) as [->|_]. }
  destruct (number_sign s) as [neg s1]. simpl in *.
  destruct (number_int s1) as [[ip s2]|] eqn:E; [|done]. simpl in *.
  destruct (number_int_spec _ _ _ E) as (-> & Hip & Hhd).
  destruct (number_frac_spec s2) as [Hs2 Hfrac].
  destruct (number_frac s2) as [frac s3]. simpl in *.
  destruct (number_exp_spec s3) as [Hs3 Hexp].
  destruct (number_exp s3) as [exp s4]. simpl in *.
  assert (r = s4) as -> by (destruct frac, exp; by injection H as <- <-).
  subst s2 s3. split.
  - rewrite Hs. destruct ip as [|c ip]; [done|]. destruct neg; simpl; auto.
  - exists ((if neg then [45] else []) ++ ip ++ frac ++ exp). split.
    + rewrite Hs. by rewrite <- !app_assoc.
    + rewrite !forallb_app, (digits_number_chars _ Hip), Hfrac, Hexp.
      by destruct neg.
Qed.

Lemma number_chars_encodable m :
  forallb is_number_char m = true → utf8_encodable m = true.
Proof.
  unfold utf8_encodable. induction m as [|c m IH]; simpl; [done|].
  intros [Hc Hm]%andb_prop. rewrite (IH Hm), andb_true_r.
  assert (c ≤ 101) as Hle.
  { unfold is_number_char in Hc. rewrite !orb_true_iff, is_digit_bounds, !N.eqb_eq in Hc. lia. }
  unfold is_surrogate. apply negb_true_iff, andb_false_intro1, N.leb_gt. lia.
Qed.

(** **** Integers *)

Lemma to_int_canonical z :
  match Z.to_int z with
  | Decimal.Pos d => d = D0 Nil ∨ nonzero_head d = true
  | Decimal.Neg d => nonzero_head d = true
  end.
Proof.
  pose proof (DecimalZ.to_of (Z.to_int z)) as H. rewrite DecimalZ.of_to in H.
  destruct (Z.to_int z) as [d|d]; simpl in H.
  - injection H as H. unfold unorm in H.
    pose proof (nzhead_nonzero d) as Hnz.
    destruct (nzhead d); rewrite H; auto. by destruct (Hnz u).
  - pose proof (nzhead_nonzero d) as Hnz.
    destruct (nzhead d); try done; injection H as ->; auto. by destruct (Hnz u).
Qed.

Lemma span_digits_uint d : span_digits (uint_str d) = (uint_str d, []).
Proof. induction d; simpl; rewrite ?IHd; done. Qed.

Lemma str_uint_uint_str d : str_uint (uint_str d) = d.
Proof. induction d; simpl; rewrite ?IHd; done. Qed.

Lemma number_int_uint d :
  d = D0 Nil ∨ nonzero_head d = true →
  number_int (uint_str d) = Some (uint_str d, []).
Proof.
  intros [->|H]; [done|].
  destruct d; try done; simpl; by rewrite span_digits_uint.
Qed.

Lemma number_sign_uint d :
  d = D0 Nil ∨ nonzero_head d = true →
  number_sign (uint_str d) = (false, uint_str d).
Proof. intros [->|H]; [done|]. by destruct d. Qed.

Lemma match_number_int z : match_number (int_repr z) = Some (PInt z, []).
Proof.
  unfold int_repr, match_number.
  pose proof (to_int_canonical z) as Hc. pose proof (DecimalZ.of_to z) as Hz.
  destruct (Z.to_int z) as [d|d].
  - rewrite (number_sign_uint _ Hc), (number_int_uint _ Hc). simpl.
    unfold int_of_literal. by rewrite str_uint_uint_str, Hz.
  - change (number_sign (45 :: uint_str d)) with (true, uint_str d). cbv beta iota.
    rewrite (number_int_uint d) by auto. simpl.
    unfold int_of_literal. by rewrite str_uint_uint_str, Hz.
Qed.

(** **** Numbers under [scan_once] *)

Lemma strip_prefix_ne a p c r : a ≠ c → strip_prefix (a :: p) (c :: r) = None.
Proof. intros H. simpl. by destruct (N.eqb_spec a c). Qed.

(** The keys of a dict literal are distinct. *)
Ltac nodup_keys :=
  cbn [fmap list_fmap fst];
  repeat (apply NoDup_cons; split;
          [let H := fresh in
           intros H; vm_compute in H;
           repeat (apply elem_of_cons in H as [H|H]; [discriminate H|]);
           by apply elem_of_nil in H|]);
  apply NoDup_nil_2.

(** Source literals, computed. *)
Ltac py_literals :=
  repeat match goal with
         | |- context [py ?s] =>
             let v := eval vm_compute in (py s) in change (py s) with v
         end.

Lemma scan_once_number n s : number_head s → scan_once (S n) s = match_number s.
Proof.
  destruct s as [|c r]; [done|]. intros [Hc|[-> Hd]].
  - apply is_digit_bounds in Hc. cbn [scan_once]. py_literals.
    destruct (N.eqb_spec c 34); [lia|]. destruct (N.eqb_spec c 123); [lia|].
    destruct (N.eqb_spec c 91); [lia|].
    rewrite !strip_prefix_ne; [done|lia..].
  - destruct r as [|d r]; [done|]. apply is_digit_bounds in Hd.
    cbn [scan_once]. py_literals. change (45 =? 34) with false.
    change (45 =? 123) with false. change (45 =? 91) with false. cbv iota.
    rewrite !strip_prefix_ne by lia.
    change (strip_prefix (45 :: ?p) (45 :: d :: r)) with (strip_prefix p (d :: r)).
    rewrite strip_prefix_ne by lia. done.
Qed.

Lemma number_head_app s rest : number_head s → number_head (s ++ rest).
Proof.
  destruct s as [|c r]; [done|]. intros [H|[-> H]]; [by left|right].
  split; [done|]. by destruct r.
Qed.

Lemma scan_number n s v rest :
  match_number s = Some (v, []) → number_end rest →
  scan_once (S n) (s ++ rest) = Some (v, rest).
Proof.
  intros H Hrest. destruct (match_number_spec _ _ _ H) as [Hhd _].
  rewrite scan_once_number by by apply number_head_app.
  by rewrite (match_number_app _ _ _ _ H Hrest).
Qed.

(** *** The fuel of [scan_once] is never what makes it fail *)

Lemma skip_ws_length s : (length (skip_ws s) ≤ length s)%nat.
Proof.
  induction s as [|c s IH]; simpl; [lia|]. destruct (is_ws c); simpl; lia.
Qed.

Lemma skip_ws_cons_length s c r : skip_ws s = c :: r → (length r < length s)%nat.
Proof. intros H. pose proof (skip_ws_length s) as Hl. rewrite H in Hl. simpl in Hl. lia. Qed.

Lemma strip_prefix_length p : ∀ s r,
  strip_prefix p s = Some r → length s = (length p + length r)%nat.
Proof.
  induction p as [|a p IH]; intros s r H; simpl in *; [by injection H as ->|].
  destruct s as [|b s]; [done|]. destruct (a =? b); [|done].
  simpl. by rewrite (IH _ _ H).
Qed.

Lemma match_number_length s v r :
  match_number s = Some (v, r) → (length r < length s)%nat.
Proof.
  unfold match_number. intros H.
  assert (length (number_sign s).2 ≤ length s)%nat as Hs.
  { destruct s as [|c s]; simpl; [lia|]. destruct (c =? 45); simpl; lia. }
  destruct (number_sign s) as [neg s1]. simpl in *.
  destruct (number_int s1) as [[ip s2]|] eqn:E; [|done]. simpl in *.
  destruct (number_int_spec _ _ _ E) as (-> & _ & Hhd).
  destruct (number_frac_spec s2) as [Hs2 _].
  destruct (number_frac s2) as [frac s3]. simpl in *.
  destruct (number_exp_spec s3) as [Hs3 _].
  destruct (number_exp s3) as [exp s4]. simpl in *.
  assert (r = s4) as -> by (destruct frac, exp; by injection H as <- <-).
  subst s2 s3. destruct ip as [|c ip]; [done|].
  rewrite !length_app in Hs. simpl in Hs. lia.
Qed.

Lemma array_loop_length scan k : ∀ s vs r,
  (∀ s v r, scan s = Some (v, r) → (length r < length s)%nat) →
  array_loop scan k s = Some (vs, r) → (length r < length s)%nat.
Proof.
  induction k as [|k IH]; intros s vs r Hscan H; [done|]. cbn [array_loop] in H.
  destruct (scan s) as [[v s1]|] eqn:E; [|done]. cbn [mbind option_bind] in H.
  apply Hscan in E.
  destruct (skip_ws s1) as [|c r1] eqn:Ews; [done|]. apply skip_ws_cons_length in Ews.
  destruct (c =? 93); [injection H as _ <-; lia|]. destruct (c =? 44); [|done].
  destruct (array_loop scan k (skip_ws r1)) as [[vs' r']|] eqn:El; [|done].
  injection H as _ <-. apply IH in El; [|done].
  pose proof (skip_ws_length r1). lia.
Qed.

Lemma object_loop_length scan k : ∀ s kvs r,
  (∀ s v r, scan s = Some (v, r) → (length r < length s)%nat) →
  object_loop scan k s = Some (kvs, r) → (length r < length s)%nat.
Proof.
  induction k as [|k IH]; intros s kvs r Hscan H; [done|]. cbn [object_loop] in H.
  destruct s as [|c s]; [done|]. destruct (c =? 34); [|done].
  destruct (scan_str s) as [[key s1]|] eqn:Ek; [|done]. cbn [mbind option_bind] in H.
  apply scanstring_length in Ek.
  destruct (skip_ws s1) as [|c1 r1] eqn:Ews1; [done|]. apply skip_ws_cons_length in Ews1.
  destruct (c1 =? 58); [|done].
  destruct (scan (skip_ws r1)) as [[v s2]|] eqn:Ev; [|done]. cbn [mbind option_bind] in H.
  apply Hscan in Ev. pose proof (skip_ws_length r1).
  destruct (skip_ws s2) as [|c2 r2] eqn:Ews2; [done|]. apply skip_ws_cons_length in Ews2.
  destruct (c2 =? 125); [injection H as _ <-; simpl; lia|]. destruct (c2 =? 44); [|done].
  destruct (object_loop scan k (skip_ws r2)) as [[kvs' r']|] eqn:El; [|done].
  injection H as _ <-. apply IH in El; [|done].
  pose proof (skip_ws_length r2). simpl. lia.
Qed.

Lemma scan_once_length n : ∀ s v r,
  scan_once n s = Some (v, r) → (length r < length s)%nat.
Proof.
  induction n as [|n IH]; intros s v r H; [done|].
  destruct s as [|c s]; [done|]. cbn [scan_once] in H.
  destruct (c =? 34).
  { destruct (scan_str s) as [[t r']|] eqn:E; [|done]. injection H as _ <-.
    apply scanstring_length in E. simpl. lia. }
  destruct (c =? 123).
  { destruct (skip_ws s) as [|c1 r1] eqn:Ews; [done|].
    pose proof (skip_ws_length s) as Hl. rewrite Ews in Hl.
    destruct (c1 =? 125); [injection H as _ <-; simpl in *; lia|].
    destruct (object_loop _ n _) as [[kvs r']|] eqn:El; [|done]. injection H as _ <-.
    apply object_loop_length in El; [|exact IH]. simpl in *. lia. }
  destruct (c =? 91).
  { destruct (skip_ws s) as [|c1 r1] eqn:Ews; [done|].
    pose proof (skip_ws_length s) as Hl. rewrite Ews in Hl.
    destruct (c1 =? 93); [injection H as _ <-; simpl in *; lia|].
    destruct (array_loop _ n _) as [[vs r']|] eqn:El; [|done]. injection H as _ <-.
    apply array_loop_length in El; [|exact IH]. simpl in *. lia. }
  repeat (match type of H with
          | match strip_prefix ?p ?t with _ => _ end = _ =>
              let E := fresh "E" in
              destruct (strip_prefix p t) as [r'|] eqn:E;
              [injection H as _ <-; apply strip_prefix_length in E;
               vm_compute (length (py _)) in E; lia|]
          end).
  by apply match_number_length in H.
Qed.

Lemma array_loop_transfer scan scan' k : ∀ k' s x,
  (∀ s v r, scan s = Some (v, r) → (length r < length s)%nat) →
  array_loop scan k s = Some x →
  (∀ r y, (length r ≤ length s)%nat → scan r = Some y → scan' r = Some y) →
  (length s ≤ k')%nat →
  array_loop scan' k' s = Some x.
Proof.
  induction k as [|k IH]; intros k' s x Hlen H Hrec Hk'; [done|]. cbn [array_loop] in H.
  destruct (scan s) as [[v s1]|] eqn:E; [|done]. cbn [mbind option_bind] in H.
  pose proof (Hlen _ _ _ E) as Hs1.
  destruct k' as [|k']; [lia|]. cbn [array_loop].
  rewrite (Hrec s _ ltac:(lia) E). cbn [mbind option_bind].
  destruct (skip_ws s1) as [|c r1] eqn:Ews; [done|]. apply skip_ws_cons_length in Ews.
  destruct (c =? 93); [done|]. destruct (c =? 44); [|done].
  destruct (array_loop scan k (skip_ws r1)) as [[vs' r']|] eqn:El; [|done].
  pose proof (skip_ws_length r1).
  erewrite IH; [exact H|exact Hlen|exact El| |lia].
  intros r y Hr Hy. apply Hrec; [lia|done].
Qed.

Lemma object_loop_transfer scan scan' k : ∀ k' s x,
  (∀ s v r, scan s = Some (v, r) → (length r < length s)%nat) →
  object_loop scan k s = Some x →
  (∀ r y, (length r ≤ length s)%nat → scan r = Some y → scan' r = Some y) →
  (length s ≤ k')%nat →
  object_loop scan' k' s = Some x.
Proof.
  induction k as [|k IH]; intros k' s x Hlen H Hrec Hk'; [done|]. cbn [object_loop] in H.
  destruct s as [|c s]; [done|]. destruct k' as [|k']; [simpl in Hk'; lia|].
  cbn [object_loop]. destruct (c =? 34); [|done].
  destruct (scan_str s) as [[key s1]|] eqn:Ek; [|done]. cbn [mbind option_bind] in *.
  apply scanstring_length in Ek.
  destruct (skip_ws s1) as [|c1 r1] eqn:Ews1; [done|]. apply skip_ws_cons_length in Ews1.
  destruct (c1 =? 58); [|done].
  destruct (scan (skip_ws r1)) as [[v s2]|] eqn:Ev; [|done]. cbn [mbind option_bind] in H.
  pose proof (Hlen _ _ _ Ev) as Hs2. pose proof (skip_ws_length r1).
  rewrite (Hrec (skip_ws r1) _ ltac:(simpl; lia) Ev). cbn [mbind option_bind].
  destruct (skip_ws s2) as [|c2 r2] eqn:Ews2; [done|]. apply skip_ws_cons_length in Ews2.
  destruct (c2 =? 125); [done|]. destruct (c2 =? 44); [|done].
  destruct (object_loop scan k (skip_ws r2)) as [[kvs' r']|] eqn:El; [|done].
  pose proof (skip_ws_length r2). simpl in Hk'.
  erewrite IH; [exact H|exact Hlen|exact El| |lia].
  intros r y Hr Hy. apply Hrec; [simpl; lia|done].
Qed.

(** Whatever fuel [scan_once] succeeds with, it gives the same result with
    any fuel above the length of the text. *)
Lemma scan_once_fuel k : ∀ s n x m,
  (length s ≤ k)%nat → scan_once n s = Some x → (length s < m)%nat →
  scan_once m s = Some x.
Proof.
  induction k as [|k IH]; intros s [|n] x [|m] Hk H Hm; try done; try lia.
  - destruct s; [done|simpl in Hk; lia].
  - destruct s as [|c s]; [done|]. cbn [length] in *. cbn [scan_once] in *.
    assert (∀ r y, (length r ≤ length s)%nat →
                   scan_once n r = Some y → scan_once m r = Some y) as Hrec.
    { intros r y Hr Hy. eapply IH; [|exact Hy|]; lia. }
    destruct (c =? 34); [done|]. destruct (c =? 123).
    { pose proof (skip_ws_length s).
      destruct (skip_ws s) as [|c1 r1] eqn:Ews; [done|].
      destruct (c1 =? 125); [done|].
      destruct (object_loop _ n _) as [[kvs r']|] eqn:El; [|done].
      erewrite object_loop_transfer;
        [exact H|apply scan_once_length|exact El| |simpl in *; lia].
      intros r y Hr Hy. apply Hrec; [simpl in *; lia|done]. }
    destruct (c =? 91); [|done].
    pose proof (skip_ws_length s).
    destruct (skip_ws s) as [|c1 r1] eqn:Ews; [done|].
    destruct (c1 =? 93); [done|].
    destruct (array_loop _ n _) as [[vs r']|] eqn:El; [|done].
    erewrite array_loop_transfer;
      [exact H|apply scan_once_length|exact El| |simpl in *; lia].
    intros r y Hr Hy. apply Hrec; [simpl in *; lia|done].
Qed.

(** The fuel [json_loads] gives the scanner is enough: where some fuel
    reads a value at the head of the text, so does that of [json_loads]. *)
Lemma json_loads_fuel n s x :
  scan_once n (skip_ws s) = Some x → scan_once (S (length s)) (skip_ws s) = Some x.
Proof.
  intros H. eapply scan_once_fuel; [done|exact H|].
  pose proof (skip_ws_length s). lia.
Qed.

(** *** White space and the first character of a value *)

Lemma skip_ws_head c r : is_ws c = false → skip_ws (c :: r) = c :: r.
Proof. simpl. by intros ->. Qed.

Lemma skip_ws_indent level s : skip_ws (newline_indent level ++ s) = skip_ws s.
Proof.
  unfold newline_indent. generalize (2 * level)%nat. intros k.
  change (skip_ws (replicate k 32 ++ s) = skip_ws s).
  induction k as [|k IH]; [done|exact IH].
Qed.

Lemma value_head_spec c :
  value_head c = true → is_ws c = false ∧ c ≠ 93 ∧ c ≠ 125 ∧ c ≠ 44.
Proof.
  unfold value_head, is_ws.
  rewrite !orb_true_iff, !orb_false_iff, is_digit_bounds, !N.eqb_eq, !N.eqb_neq. lia.
Qed.

Lemma number_head_value s : number_head s → ∃ c r, s = c :: r ∧ value_head c = true.
Proof.
  destruct s as [|c r]; [done|]. intros H. exists c, r. split; [done|].
  unfold value_head. destruct H as [->|[-> _]]; by rewrite ?orb_true_r.
Qed.

Lemma encode_head v level :
  py_ok v → ∃ c r, encode level v = c :: r ∧ value_head c = true.
Proof.
  intros Hok. destruct v as [|[]| | | |[|x l]|[|kv d]]; simpl; try by eauto.
  - apply number_head_value.
    by destruct (match_number_spec _ _ _ (match_number_int z)).
  - inversion_clear Hok. apply number_head_value.
    by destruct (match_number_spec _ _ _ H).
Qed.

Lemma skip_ws_encode v level rest :
  py_ok v → skip_ws (encode level v ++ rest) = encode level v ++ rest.
Proof.
  intros (c & r & -> & Hc)%(encode_head _ level).
  apply skip_ws_head. by apply value_head_spec.
Qed.

(** *** Arrays and objects *)

Lemma number_end_indent level s : number_end (newline_indent level ++ s).
Proof. done. Qed.

Lemma number_end_comma s : number_end (44 :: s).
Proof. done. Qed.

Lemma array_loop_encode scan level : ∀ xs x k rest,
  Forall (λ v, py_ok v ∧ scans scan (S level) v) (x :: xs) →
  (length xs < k)%nat →
  array_loop scan k
    (encode (S level) x
     ++ flat_map (app (44 :: newline_indent (S level))) (map (encode (S level)) xs)
     ++ newline_indent level ++ 93 :: rest)
  = Some (x :: xs, rest).
Proof.
  induction xs as [|y ys IH]; intros x [|k] rest Hall Hk; simpl in Hk; try lia.
  - inversion_clear Hall as [|?? [Hok Hx] _]. cbn [map flat_map app array_loop].
    rewrite Hx by apply number_end_indent. cbn [mbind option_bind].
    rewrite skip_ws_indent, skip_ws_head by done. done.
  - inversion_clear Hall as [|?? [Hok Hx] Hys]. cbn [map flat_map array_loop].
    rewrite <- !app_assoc, <- app_comm_cons.
    rewrite Hx by apply number_end_comma. cbn [mbind option_bind].
    rewrite skip_ws_head by done. change (44 =? 93) with false.
    change (44 =? 44) with true. cbv iota.
    inversion Hys as [|?? [Hoky _] _]; subst.
    rewrite skip_ws_indent, skip_ws_encode by done.
    rewrite IH by (done || lia). done.
Qed.

Lemma object_loop_encode scan level : ∀ kvs k v n rest,
  Forall (λ kv, py_ok kv.2 ∧ scans scan (S level) kv.2) ((k, v) :: kvs) →
  (length kvs < n)%nat →
  object_loop scan n
    (encode_basestring k ++ [58; 32] ++ encode (S level) v
     ++ flat_map (app (44 :: newline_indent (S level)))
          (map (λ kv, match kv with
                      | (k, v) => encode_basestring k ++ [58; 32] ++ encode (S level) v
                      end) kvs)
     ++ newline_indent level ++ 125 :: rest)
  = Some ((k, v) :: kvs, rest).
Proof.
  induction kvs as [|[k' v'] kvs IH]; intros k v [|n] rest Hall Hn; simpl in Hn; try lia.
  - inversion_clear Hall as [|?? [Hok Hv] _]. simpl in Hok, Hv.
    unfold encode_basestring. cbn [map flat_map]. rewrite <- !app_assoc.
    cbn [app object_loop]. change (34 =? 34) with true. cbv iota.
    rewrite scan_str_encode. cbn [mbind option_bind].
    rewrite skip_ws_head by done. change (58 =? 58) with true. cbv iota.
    change (skip_ws (32 :: ?X)) with (skip_ws X).
    rewrite skip_ws_encode by done.
    rewrite Hv by apply number_end_indent. cbn [mbind option_bind].
    rewrite skip_ws_indent, skip_ws_head by done. done.
  - inversion_clear Hall as [|?? [Hok Hv] Hkvs]. simpl in Hok, Hv.
    specialize (IH k' v' n rest Hkvs ltac:(lia)).
    cbn [map flat_map]. rewrite <- !app_assoc.
    match type of IH with
    | object_loop _ _ ?X = _ =>
        assert (skip_ws X = X) as Htail by done; set (tail := X) in *
    end.
    unfold encode_basestring. rewrite <- !app_assoc.
    cbn [app object_loop]. change (34 =? 34) with true. cbv iota.
    rewrite scan_str_encode. cbn [mbind option_bind].
    rewrite skip_ws_head by done. change (58 =? 58) with true. cbv iota.
    change (skip_ws (32 :: ?X)) with (skip_ws X).
    rewrite skip_ws_encode by done.
    rewrite Hv by apply number_end_comma. cbn [mbind option_bind].
    rewrite skip_ws_head by done. change (44 =? 125) with false.
    change (44 =? 44) with true. cbv iota.
    rewrite skip_ws_indent, Htail, IH. done.
Qed.

Lemma dict_set_fresh k v d : k ∉ d.*1 → dict_set k v d = d ++ [(k, v)].
Proof.
  induction d as [|[k' v'] d IH]; simpl; [done|]. intros H.
  apply not_elem_of_cons in H as [Hne Hd]. case_decide; [done|]. by rewrite IH.
Qed.

Lemma fold_dict_set kvs : ∀ acc,
  NoDup (acc ++ kvs).*1 →
  fold_left (λ d kv, dict_set kv.1 kv.2 d) kvs acc = acc ++ kvs.
Proof.
  induction kvs as [|[k v] kvs IH]; intros acc H; simpl.
  - by rewrite app_nil_r.
  - rewrite dict_set_fresh.
    + rewrite IH; rewrite <- app_assoc; done.
    + rewrite fmap_app in H. apply NoDup_app in H as (_ & H & _).
      intros Hk. apply (H k Hk). simpl. left.
Qed.

Lemma dict_of_pairs_nodup d : NoDup d.*1 → dict_of_pairs d = d.
Proof. intros H. unfold dict_of_pairs. by rewrite fold_dict_set. Qed.

Lemma sum_list_elem {A} (f : A → nat) l x :
  x ∈ l → (f x ≤ sum_list (map f l))%nat.
Proof.
  induction l as [|y l IH]; [by intros ?%elem_of_nil|].
  intros [->|H]%elem_of_cons; simpl; [lia|]. specialize (IH H). lia.
Qed.

Lemma sum_list_length {A} (f : A → nat) l :
  (∀ x, 1 ≤ f x)%nat → (length l ≤ sum_list (map f l))%nat.
Proof.
  intros Hf. induction l as [|y l IH]; simpl; [lia|]. specialize (Hf y). lia.
Qed.

(** *** Every value is read back from its text *)

Lemma scan_once_encode v :
  py_ok v → ∀ level fuel, (py_size v ≤ fuel)%nat → scans (scan_once fuel) level v.
Proof.
  induction v as [|b|z|x|s|l IH|d IH] using pyval_ind_nested;
    intros Hok level [|n] Hn rest Hrest; simpl in Hn; try lia.
  - done.
  - by destruct b.
  - apply scan_number; [apply match_number_int|done].
  - inversion_clear Hok. by apply scan_number.
  - cbn [encode]. unfold encode_basestring. rewrite <- !app_assoc.
    cbn [app scan_once]. change (34 =? 34) with true. cbv iota.
    by rewrite scan_str_encode.
  - inversion_clear Hok as [| | | | |? Hl|]. destruct l as [|x xs]; [done|].
    assert (Forall (λ v, py_ok v ∧ scans (scan_once n) (S level) v) (x :: xs)) as Hall.
    { apply Forall_forall. intros y Hy. split; [by eapply Forall_forall|].
      eapply Forall_forall in IH; [|done]. apply IH; [by eapply Forall_forall|].
      pose proof (sum_list_elem (λ v, S (py_size v)) _ _ Hy). simpl in *. lia. }
    assert (length xs < n)%nat as Hlen.
    { pose proof (sum_list_length (λ v, S (py_size v)) (x :: xs)) as H.
      simpl in *. specialize (H ltac:(intros; lia)). lia. }
    cbn [encode join map]. rewrite <- !app_assoc. cbn [app scan_once].
    change (91 =? 34) with false. change (91 =? 123) with false.
    change (91 =? 91) with true. cbv iota.
    inversion Hl as [|?? Hx _]; subst.
    rewrite skip_ws_indent, skip_ws_encode by done.
    pose proof (array_loop_encode _ _ _ _ _ rest Hall Hlen) as Hloop.
    destruct (encode_head x (S level) Hx) as (c & r & Ex & Hc).
    apply value_head_spec in Hc as (_ & Hc & _).
    rewrite Ex in Hloop |- *. cbn [app] in Hloop |- *.
    destruct (N.eqb_spec c 93); [done|]. by rewrite Hloop.
  - inversion_clear Hok as [| | | | | |? Hnd Hd]. destruct d as [|[k x] kvs]; [done|].
    assert (Forall (λ kv, py_ok kv.2 ∧ scans (scan_once n) (S level) kv.2)
              ((k, x) :: kvs)) as Hall.
    { apply Forall_forall. intros y Hy. split; [by eapply Forall_forall in Hd|].
      eapply Forall_forall in IH; [|done]. apply IH; [by eapply Forall_forall in Hd|].
      pose proof (sum_list_elem (λ kv : pystr * pyval, let (_, v) := kv in S (py_size v))
                    _ _ Hy) as H. destruct y. simpl in *. lia. }
    assert (length kvs < n)%nat as Hlen.
    { pose proof (sum_list_length
                    (λ kv : pystr * pyval, let (_, v) := kv in S (py_size v))
                    ((k, x) :: kvs)) as H.
      simpl in *. specialize (H ltac:(intros []; lia)). lia. }
    pose proof (object_loop_encode _ _ _ _ _ _ rest Hall Hlen) as Hloop.
    match type of Hloop with
    | object_loop _ _ ?X = _ =>
        assert (skip_ws X = X) as Hskip by done;
        assert (∃ r1, X = 34 :: r1) as [r1 Hhead] by (by eexists);
        assert (encode level (PDict ((k, x) :: kvs)) ++ rest
                = 123 :: newline_indent (S level) ++ X) as ->
          by (cbn [encode join map]; by rewrite <- !app_assoc);
        set (text := X) in *
    end.
    cbn [scan_once]. change (123 =? 34) with false. change (123 =? 123) with true.
    cbv iota. rewrite skip_ws_indent, Hskip. clearbody text. subst text.
    change (34 =? 125) with false. cbv iota.
    rewrite Hloop. cbn [mbind option_bind]. by rewrite dict_of_pairs_nodup.
Qed.

Lemma encode_nonempty v level : py_ok v → (1 ≤ length (encode level v))%nat.
Proof.
  intros (c & r & -> & _)%(encode_head _ level). simpl. lia.
Qed.

Lemma length_items level l :
  Forall (λ v, py_size v ≤ length (encode (S level) v))%nat l →
  (sum_list (map (λ v, S (py_size v)) l)
   ≤ length (flat_map (app (44%N :: newline_indent (S level)))
               (map (encode (S level)) l)))%nat.
Proof.
  induction 1 as [|x l Hx _ IH]; [simpl; lia|].
  cbn [map flat_map]. rewrite !length_app. cbn [length].
  change (sum_list (?a :: ?r)) with (a + sum_list r)%nat. lia.
Qed.

Lemma length_pairs level d :
  Forall (λ kv, py_size kv.2 ≤ length (encode (S level) kv.2))%nat d →
  (sum_list (map (λ kv : pystr * pyval, let (_, v) := kv in S (py_size v)) d)
   ≤ length (flat_map (app (44%N :: newline_indent (S level)))
               (map (λ kv : pystr * pyval,
                       let (k, v) := kv in
                       encode_basestring k ++ [58%N; 32%N] ++ encode (S level) v) d)))%nat.
Proof.
  induction 1 as [|[k x] d Hx _ IH]; [simpl; lia|].
  cbn [map flat_map]. rewrite !length_app. cbn [length snd] in *.
  change (sum_list (?a :: ?r)) with (a + sum_list r)%nat. lia.
Qed.

Lemma py_size_length v : py_ok v → ∀ level, (py_size v ≤ length (encode level v))%nat.
Proof.
  induction v as [|b|z|x|s|l IH|d IH] using pyval_ind_nested; intros Hok level;
    try (by apply encode_nonempty).
  - inversion_clear Hok as [| | | | |? Hl|]. destruct l as [|x xs]; [simpl; lia|].
    inversion_clear Hl as [|?? Hx Hxs]. inversion_clear IH as [|?? IHx IHxs].
    pose proof (IHx Hx (S level)).
    assert (Forall (λ x, py_size x ≤ length (encode (S level) x))%nat xs) as Hall.
    { apply Forall_forall. intros y Hy.
      eapply Forall_forall in IHxs; [|done]. apply IHxs. by eapply Forall_forall in Hxs. }
    apply length_items in Hall.
    cbn [encode py_size map join]. rewrite !length_app. cbn [length].
    change (sum_list (?a :: ?r)) with (a + sum_list r)%nat. lia.
  - inversion_clear Hok as [| | | | | |? _ Hd]. destruct d as [|[k x] kvs]; [simpl; lia|].
    inversion_clear Hd as [|?? Hx Hxs]. inversion_clear IH as [|?? IHx IHxs].
    pose proof (IHx Hx (S level)).
    assert (Forall (λ kv, py_size kv.2 ≤ length (encode (S level) kv.2))%nat kvs) as Hall.
    { apply Forall_forall. intros y Hy.
      eapply Forall_forall in IHxs; [|done]. apply IHxs. by eapply Forall_forall in Hxs. }
    apply length_pairs in Hall.
    cbn [encode py_size map join]. rewrite !length_app. cbn [length snd] in *.
    change (sum_list (?a :: ?r)) with (a + sum_list r)%nat. lia.
Qed.

(** [json.loads(json.dumps(v)) == v] *)
Lemma json_loads_dumps v : py_ok v → json_loads (json_dumps v) = Some v.
Proof.
  intros Hok. unfold json_loads, json_dumps.
  pose proof (skip_ws_encode v 0 [] Hok) as Hskip.
  pose proof (scan_once_encode v Hok 0 (S (length (encode 0 v)))) as Hscan.
  rewrite app_nil_r in Hskip. rewrite Hskip.
  specialize (Hscan ltac:(pose proof (py_size_length v Hok 0); lia) [] I).
  rewrite app_nil_r in Hscan. by rewrite Hscan.
Qed.

(** *** The chunks of [json.dump] and the file they reach *)

Lemma concat_item level buf v :
  (∀ level, concat (iterencode level v) = encode level v) →
  concat (if is_scalar v then [buf ++ encode (S level) v]
          else buf :: iterencode (S level) v)
  = buf ++ encode (S level) v.
Proof.
  intros H. destruct (is_scalar v); simpl; [by rewrite app_nil_r|by rewrite H].
Qed.

Lemma concat_items level buf l :
  Forall (λ v, ∀ level, concat (iterencode level v) = encode level v) l →
  concat (flat_map (λ v, if is_scalar v then [buf ++ encode (S level) v]
                         else buf :: iterencode (S level) v) l)
  = flat_map (app buf) (map (encode (S level)) l).
Proof.
  induction 1 as [|x l Hx _ IH]; [done|].
  cbn [map flat_map]. by rewrite concat_app, IH, concat_item.
Qed.

Lemma concat_pairs level buf d :
  Forall (λ kv, ∀ level, concat (iterencode level kv.2) = encode level kv.2) d →
  concat (flat_map (λ kv : pystr * pyval,
                      buf :: (let (k, v) := kv in
                              [encode_basestring k; [58; 32]] ++ iterencode (S level) v)) d)
  = flat_map (app buf)
      (map (λ kv : pystr * pyval,
              let (k, v) := kv in
              encode_basestring k ++ [58; 32] ++ encode (S level) v) d).
Proof.
  induction 1 as [|[k x] d Hx _ IH]; [done|].
  cbn [map flat_map]. rewrite concat_app, IH. f_equal.
  simpl in *. by rewrite Hx.
Qed.

Lemma concat_iterencode v : ∀ level, concat (iterencode level v) = encode level v.
Proof.
  induction v as [|b|z|x|s|l IH|d IH] using pyval_ind_nested; intros level;
    try (cbn [iterencode concat]; by rewrite app_nil_r).
  - destruct l as [|x xs]; [done|]. inversion_clear IH as [|?? IHx IHxs].
    cbn [iterencode encode join map].
    rewrite !concat_app, concat_items, concat_item by done.
    cbn [concat]. by rewrite app_nil_r, <- !app_assoc.
  - destruct d as [|[k x] kvs]; [done|]. inversion_clear IH as [|?? IHx IHxs].
    cbn [iterencode encode join map]. rewrite !concat_app, concat_pairs by done.
    cbn [concat snd] in *. by rewrite IHx, !app_nil_r, <- !app_assoc.
Qed.

Lemma encodable_app s t :
  utf8_encodable (s ++ t) = utf8_encodable s && utf8_encodable t.
Proof. apply forallb_app. Qed.

Lemma write_chunks_ok chunks : ∀ written,
  utf8_encodable (concat chunks) = true →
  write_chunks chunks written = (written ++ concat chunks, true).
Proof.
  induction chunks as [|c cs IH]; intros written H; simpl in *.
  - by rewrite app_nil_r.
  - rewrite encodable_app in H. apply andb_prop in H as [-> H].
    by rewrite IH, <- app_assoc.
Qed.

Lemma hexdigit_ascii n : n < 16 → is_surrogate (hexdigit n) = false.
Proof.
  intros H. unfold is_surrogate, hexdigit. apply andb_false_intro1, N.leb_gt.
  destruct (n <? 10); lia.
Qed.

Lemma encodable_escape_char c : utf8_encodable (escape_char c) = negb (is_surrogate c).
Proof.
  unfold escape_char.
  destruct (N.eqb_spec c 34) as [->|?]; [done|].
  destruct (N.eqb_spec c 92) as [->|?]; [done|].
  destruct (N.eqb_spec c 10) as [->|?]; [done|].
  destruct (N.eqb_spec c 13) as [->|?]; [done|].
  destruct (N.eqb_spec c 9) as [->|?]; [done|].
  destruct (N.eqb_spec c 8) as [->|?]; [done|].
  destruct (N.eqb_spec c 12) as [->|?]; [done|].
  destruct (N.ltb_spec c 32) as [Hc|Hc]; [|simpl; by rewrite andb_true_r].
  simpl. rewrite !hexdigit_ascii
    by (try apply N.mod_lt; try apply N.Div0.div_lt_upper_bound; lia).
  simpl. symmetry. apply negb_true_iff, andb_false_intro1, N.leb_gt. lia.
Qed.

Lemma encodable_escape s : utf8_encodable (flat_map escape_char s) = utf8_encodable s.
Proof.
  induction s as [|c s IH]; [done|].
  cbn [flat_map]. rewrite encodable_app, encodable_escape_char, IH. done.
Qed.

Lemma encodable_basestring s : utf8_encodable (encode_basestring s) = utf8_encodable s.
Proof.
  unfold encode_basestring. rewrite !encodable_app, encodable_escape.
  simpl. by rewrite andb_true_r.
Qed.

Lemma encodable_indent level : utf8_encodable (newline_indent level) = true.
Proof.
  unfold newline_indent. generalize (2 * level)%nat. intros k.
  induction k as [|k IH]; [done|exact IH].
Qed.

Lemma encodable_number s v : match_number s = Some (v, []) → utf8_encodable s = true.
Proof.
  intros (_ & m & -> & Hm)%match_number_spec. rewrite app_nil_r.
  by apply number_chars_encodable.
Qed.

Lemma encodable_cons c s :
  utf8_encodable (c :: s) = negb (is_surrogate c) && utf8_encodable s.
Proof. done. Qed.

Lemma encodable_items level l :
  Forall (λ v, utf8_encodable (encode (S level) v) = true) l →
  utf8_encodable (flat_map (app (44 :: newline_indent (S level)))
                    (map (encode (S level)) l)) = true.
Proof.
  induction 1 as [|x l Hx _ IH]; [done|].
  cbn [map flat_map]. rewrite !encodable_app, encodable_cons, encodable_indent, Hx, IH.
  done.
Qed.

Lemma encodable_pairs level d :
  Forall (λ kv, utf8_encodable kv.1 = true
                ∧ utf8_encodable (encode (S level) kv.2) = true) d →
  utf8_encodable
    (flat_map (app (44 :: newline_indent (S level)))
       (map (λ kv : pystr * pyval,
               let (k, v) := kv in
               encode_basestring k ++ [58; 32] ++ encode (S level) v) d)) = true.
Proof.
  induction 1 as [|[k x] d [Hk Hx] _ IH]; [done|].
  cbn [map flat_map fst snd] in *.
  rewrite !encodable_app, encodable_cons, encodable_indent, encodable_basestring.
  by rewrite Hk, Hx, IH.
Qed.

Lemma encodable_encode v :
  py_ok v → py_encodable v = true → ∀ level, utf8_encodable (encode level v) = true.
Proof.
  induction v as [|b|z|x|s|l IH|d IH] using pyval_ind_nested; intros Hok Henc level.
  - done.
  - by destruct b.
  - apply (encodable_number _ _ (match_number_int z)).
  - inversion_clear Hok. by eapply encodable_number.
  - cbn [encode py_encodable] in *. by rewrite encodable_basestring.
  - inversion_clear Hok as [| | | | |? Hl|]. destruct l as [|x xs]; [done|].
    assert (Forall (λ v, utf8_encodable (encode (S level) v) = true) (x :: xs)) as Hall.
    { apply Forall_forall. intros y Hy. eapply Forall_forall in IH; [|done].
      apply IH; [by eapply Forall_forall in Hl|].
      cbn [py_encodable] in Henc. rewrite forallb_forall in Henc.
      apply Henc. by apply list_elem_of_In. }
    inversion_clear Hall as [|?? Hx Hxs].
    cbn [encode join map].
    rewrite !encodable_app, !encodable_indent, Hx, (encodable_items _ _ Hxs). done.
  - inversion_clear Hok as [| | | | | |? _ Hd]. destruct d as [|[k x] kvs]; [done|].
    assert (Forall (λ kv, utf8_encodable kv.1 = true
                          ∧ utf8_encodable (encode (S level) kv.2) = true)
              ((k, x) :: kvs)) as Hall.
    { apply Forall_forall. intros [k' y] Hy.
      cbn [py_encodable] in Henc. rewrite forallb_forall in Henc.
      pose proof Hy as Hky. apply list_elem_of_In, Henc, andb_prop in Hky as [Hk' Hy'].
      split; [done|]. eapply Forall_forall in IH; [|done].
      apply IH; [by eapply Forall_forall in Hd|done]. }
    inversion_clear Hall as [|?? [Hk Hx] Hxs].
    cbn [encode join map fst snd] in *.
    rewrite !encodable_app, !encodable_indent, encodable_basestring, Hk, Hx.
    rewrite (encodable_pairs _ _ Hxs). done.
Qed.

(** *** Saving and loading *)

Lemma snapshot_ok now h : float_roundtrips now → py_ok h → py_ok (snapshot now h).
Proof.
  intros Hnow Hh. constructor.
  - nodup_keys.
  - repeat constructor; done.
Qed.

Lemma save_history_ok now h filename (files : gmap string pystr) :
  float_roundtrips now → py_ok h → py_encodable h = true →
  save_history now h filename files
  = (<[filename := json_dumps (snapshot now h)]> files, []).
Proof.
  intros Hnow Hok Henc. unfold save_history.
  rewrite write_chunks_ok; rewrite concat_iterencode; [done|].
  apply encodable_encode; [by apply snapshot_ok|].
  simpl. by rewrite Henc.
Qed.

Lemma load_saved now h filename (files : gmap string pystr) :
  float_roundtrips now → py_ok h →
  load_history (<[filename := json_dumps (snapshot now h)]> files) filename = (h, []).
Proof.
  intros Hnow Hok. unfold load_history.
  rewrite lookup_insert_eq, json_loads_dumps by by apply snapshot_ok.
  unfold snapshot. cbn [dict_get]. rewrite decide_False by done.
  by rewrite decide_True.
Qed.

(** *** Sending, on a typed conversation *)

Lemma append_message_conversation C r text now :
  append_message (of_conversation C) (role_str r) text now
  = Some (of_conversation
            (C ++ [{| turn_role := r; turn_text := text; turn_ts := now |}])).
Proof. unfold of_conversation, append_message. by rewrite fmap_app. Qed.

Lemma turn_fields t :
  (r ← subscript (of_turn t) (py "role");
   x ← subscript (of_turn t) (py "text");
   Some (PDict [(py "role", r); (py "content", x)])) = Some (turn_message t).
Proof.
  unfold of_turn, message, subscript. cbn [dict_get].
  repeat case_decide; done.
Qed.

Lemma build_messages_conversation system C :
  build_messages system (of_conversation C)
  = Some (system_message system :: (turn_message <$> drop (length C - 24) C)).
Proof.
  unfold build_messages, of_conversation.
  rewrite length_fmap, <- fmap_drop. generalize (drop (length C - 24) C). intros l.
  assert (mapM (λ h, r ← subscript h (py "role");
                     t ← subscript h (py "text");
                     Some (PDict [(py "role", r); (py "content", t)]))
            (of_turn <$> l) = Some (turn_message <$> l)) as ->; [|done].
  induction l as [|t l IH]; [done|].
  cbn [fmap list_fmap mapM]. rewrite turn_fields, IH. done.
Qed.

Lemma save_history_log now h filename (files : gmap string pystr) :
  replies (save_history now h filename files).2 = 0%nat
  ∧ failed_calls (save_history now h filename files).2 = 0%nat.
Proof.
  unfold save_history. by destruct (write_chunks _ _) as [text []].
Qed.

Lemma handle_send_conversation w cfg input st C :
  history st = of_conversation C → strip input ≠ [] →
  let C1 := C ++ [user_turn w input st] in
  let r := remote w (1 + tick st) (prompt cfg C1) in
  ∃ st' log,
    handle_send w cfg input st = (st', completions_create (prompt cfg C1) r :: log)
    ∧ replies log = 0%nat ∧ failed_calls log = 0%nat
    ∧ history st'
      = of_conversation
          (match r with
           | api_returns (Some content) => C1 ++ [assistant_turn w content st]
           | _ => C1
           end)
    ∧ (2 + tick st ≤ tick st')%nat.
Proof.
  intros HC Hin. cbv zeta. set (C1 := C ++ [user_turn w input st]).
  unfold handle_send. rewrite HC.
  destruct (strip input) as [|c s] eqn:E; [done|]. rewrite <- E.
  change (py "user") with (role_str user).
  rewrite append_message_conversation. fold (user_turn w input st). fold C1.
  rewrite build_messages_conversation. fold (prompt cfg C1). cbv zeta.
  destruct (remote w (1 + tick st) (prompt cfg C1)) as [|[content|]];
    [by eexists _, _; repeat apply conj; try reflexivity; simpl; lia|
    |by eexists _, _; repeat apply conj; try reflexivity; simpl; lia].
  change (py "assistant") with (role_str assistant).
  rewrite append_message_conversation. fold (assistant_turn w content st).
  destruct (persist_to_disk cfg);
    [|by eexists _, _; repeat apply conj; try reflexivity; simpl; lia].
  pose proof (save_history_log (clock w (3 + tick st))
                (of_conversation (C1 ++ [assistant_turn w content st]))
                PERSIST_FILE (disk st)) as [Hr Hf].
  destruct (save_history _ _ _ _) as [files log]. simpl in Hr, Hf.
  eexists _, _. split; [done|]. unfold replies, failed_calls in *.
  rewrite !List.filter_app, !length_app, Hr, Hf. simpl. repeat split; lia.
Qed.

Lemma replies_cons e log :
  replies (e :: log) = ((if is_reply e then 1 else 0) + replies log)%nat.
Proof. unfold replies. simpl. by destruct (is_reply e). Qed.

Lemma failed_calls_cons e log :
  failed_calls (e :: log) = ((if is_failed_call e then 1 else 0) + failed_calls log)%nat.
Proof. unfold failed_calls. simpl. by destruct (is_failed_call e). Qed.

Lemma replies_app log1 log2 : replies (log1 ++ log2) = (replies log1 + replies log2)%nat.
Proof. unfold replies. by rewrite List.filter_app, length_app. Qed.

Lemma failed_calls_app log1 log2 :
  failed_calls (log1 ++ log2) = (failed_calls log1 + failed_calls log2)%nat.
Proof. unfold failed_calls. by rewrite List.filter_app, length_app. Qed.

Lemma handle_send_spec w cfg input st C :
  history st = of_conversation C → strip input ≠ [] →
  history (handle_send w cfg input st).1
  = of_conversation (spec_send w cfg input C (tick st)).1.1
  ∧ tick (handle_send w cfg input st).1 = (spec_send w cfg input C (tick st)).2
  ∧ replies (handle_send w cfg input st).2
    = (if answered (spec_send w cfg input C (tick st)).1.2 then 1 else 0)%nat
  ∧ failed_calls (handle_send w cfg input st).2
    = (if answered (spec_send w cfg input C (tick st)).1.2 then 0 else 1)%nat.
Proof.
  intros HC Hin. unfold spec_send. cbv zeta.
  fold (user_turn w input st). set (C1 := C ++ [user_turn w input st]).
  unfold handle_send. rewrite HC.
  destruct (strip input) as [|c s] eqn:E; [done|]. rewrite <- E.
  change (py "user") with (role_str user).
  rewrite append_message_conversation. fold (user_turn w input st). fold C1.
  rewrite build_messages_conversation. fold (prompt cfg C1). cbv zeta.
  destruct (remote w (1 + tick st) (prompt cfg C1)) as [|[content|]]; [done| |done].
  change (py "assistant") with (role_str assistant).
  rewrite append_message_conversation. fold (assistant_turn w content st).
  destruct (persist_to_disk cfg); [|done].
  pose proof (save_history_log (clock w (3 + tick st))
                (of_conversation (C1 ++ [assistant_turn w content st]))
                PERSIST_FILE (disk st)) as [Hr Hf].
  destruct (save_history _ _ _ _) as [files log]. cbn [fst snd] in *.
  rewrite replies_cons, failed_calls_cons, replies_app, failed_calls_app, Hr, Hf.
  done.
Qed.

Lemma conversation_ok C :
  Forall (λ t, float_roundtrips (turn_ts t)) C → py_ok (of_conversation C).
Proof.
  intros H. constructor. apply Forall_fmap. eapply Forall_impl; [exact H|].
  intros t Ht. constructor.
  - nodup_keys.
  - repeat constructor; done.
Qed.

Lemma conversation_encodable C :
  Forall (λ t, utf8_encodable (turn_text t) = true) C →
  py_encodable (of_conversation C) = true.
Proof.
  induction 1 as [|t C Ht _ IH]; [done|].
  cbn [of_conversation fmap list_fmap py_encodable forallb] in *.
  rewrite IH, andb_true_r. unfold of_turn, message.
  cbn [py_encodable forallb]. rewrite Ht. by destruct (turn_role t).
Qed.

Lemma timestamps_sorted_snoc C u :
  timestamps_sorted C →
  (∀ t, t ∈ C → float_le (turn_ts t) (turn_ts u)) →
  timestamps_sorted (C ++ [u]).
Proof.
  intros HC Hu i j a b Hij Hi Hj.
  destruct (decide (j < length C)%nat) as [Hlt|Hge].
  - rewrite lookup_app_l in Hi, Hj by lia. eauto.
  - rewrite lookup_app_r in Hj by lia.
    destruct (j - length C)%nat as [|k] eqn:Ek; [|done]. injection Hj as <-.
    rewrite lookup_app_l in Hi by lia. apply Hu. by eapply list_elem_of_lookup_2.
Qed.

(** * The claims *)

(** C1. Along any sequence of Send actions whose inputs are not blank,
    started on a conversation, the conversation that results is the one
    the specification describes: for each Send in turn, the user turn with
    the trimmed input, then, when the remote service replies to the prompt
    of the conversation so far, the assistant turn with its trimmed reply.
    Its length is the length at the start plus two for each Send the
    service answered and one for each Send it failed, the earlier turns
    stay in place, and the service is called once for each Send. *)
Theorem send_sequence_lengths w (sends : list (settings * pystr)) : ∀ st C,
  history st = of_conversation C →
  Forall (λ s, strip s.2 ≠ []) sends →
  let out := run w ((λ s, (s.1, Send s.2)) <$> sends) st in
  let C' := (spec_sends w sends C (tick st)).1 in
  let answers := (spec_sends w sends C (tick st)).2 in
  history out.1 = of_conversation C'
  ∧ length C'
    = (length C + 2 * length (List.filter answered answers)
       + length (List.filter (λ r, negb (answered r)) answers))%nat
  ∧ C `prefix_of` C'
  ∧ length answers = length sends
  ∧ replies out.2 = length (List.filter answered answers)
  ∧ failed_calls out.2 = length (List.filter (λ r, negb (answered r)) answers).
Proof.
  induction sends as [|[cfg input] sends IH]; intros st C HC Hin; cbv zeta.
  - repeat split; try done. cbn. lia.
  - inversion_clear Hin as [|?? Hinput Hrest].
    cbn [fmap list_fmap run handle fst snd spec_sends].
    destruct (handle_send_spec w cfg input st C HC Hinput) as (Hh & Ht & Hr & Hf).
    assert (length (spec_send w cfg input C (tick st)).1.1
            = (length C + if answered (spec_send w cfg input C (tick st)).1.2
                          then 2 else 1)%nat
            ∧ C `prefix_of` (spec_send w cfg input C (tick st)).1.1) as [Hlen Hpre].
    { unfold spec_send. cbv zeta.
      destruct (remote w (1 + tick st) _) as [|[content|]]; cbn [fst snd answered];
        rewrite ?length_app; cbn [length]; (split; [lia|]);
        rewrite <- ?app_assoc; by apply prefix_app_r. }
    destruct (spec_send w cfg input C (tick st)) as [[C1 r] now1]. cbn [fst snd] in *.
    destruct (handle_send w cfg input st) as [st1 log1]. cbn [fst snd] in *.
    specialize (IH st1 C1 Hh Hrest). cbv zeta in IH. rewrite Ht in IH.
    destruct (spec_sends w sends C1 now1) as [C' answers].
    destruct (run w _ st1) as [st2 log2]. cbn [fst snd] in *.
    destruct IH as (IHh & IHlen & IHpre & IHn & IHr & IHf).
    rewrite replies_app, failed_calls_app, Hr, Hf, IHr, IHf.
    cbn [List.filter length]. split; [done|].
    destruct (answered r); cbn [negb length];
      (split; [lia|]); (split; [by etrans|]); repeat split; lia.
Qed.

(** C2, amended. For every conversation whose texts UTF-8 can encode and
    whose timestamps are finite floats, saved at a finite instant:
    [save_history] writes the snapshot without an error, and [load_history]
    on the same path returns the conversation, with no warning. *)
Theorem save_load_roundtrip now (C : list Turn) filename (files : gmap string pystr) :
  float_roundtrips now →
  Forall (λ t, float_roundtrips (turn_ts t)) C →
  Forall (λ t, utf8_encodable (turn_text t) = true) C →
  (save_history now (of_conversation C) filename files).2 = []
  ∧ load_history (save_history now (of_conversation C) filename files).1 filename
    = (of_conversation C, []).
Proof.
  intros Hnow Hts Htext.
  rewrite save_history_ok
    by (done || by apply conversation_ok || by apply conversation_encodable).
  split; [done|]. cbn [fst]. apply load_saved; [done|by apply conversation_ok].
Qed.

(** C3, amended. Under a clock that never goes back, in a session that
    starts on a conversation whose timestamps never decrease and are not
    later than the clock, every conversation reached by Send, Clear and
    Export has timestamps that never decrease. *)
Theorem timestamps_sorted_in_session w script : ∀ st C,
  (∀ i j, (i ≤ j)%nat → float_le (clock w i) (clock w j)) →
  history st = of_conversation C →
  timestamps_sorted C →
  (∀ t n, t ∈ C → (tick st ≤ n)%nat → float_le (turn_ts t) (clock w n)) →
  ∃ C', history (run w script st).1 = of_conversation C' ∧ timestamps_sorted C'.
Proof.
  induction script as [|[cfg a] script IH]; intros st C Hmono HC Hsorted Hbound.
  - by exists C.
  - cbn [run].
    assert (∃ C1, history (handle w cfg a st).1 = of_conversation C1
                  ∧ timestamps_sorted C1
                  ∧ ∀ t n, t ∈ C1 → (tick (handle w cfg a st).1 ≤ n)%nat →
                           float_le (turn_ts t) (clock w n)) as (C1 & HC1 & Hs1 & Hb1).
    { destruct a as [input| |]; cbn [handle].
      - destruct (decide (strip input = [])) as [Hblank|Hin].
        { unfold handle_send. rewrite Hblank. by exists C. }
        destruct (handle_send_conversation w cfg input st C HC Hin)
          as (st1 & log1 & -> & _ & _ & Hh1 & Htick). cbn [fst].
        assert (timestamps_sorted (C ++ [user_turn w input st])) as Hsu.
        { apply timestamps_sorted_snoc; [done|]. intros t Ht. by apply Hbound. }
        assert (∀ t n, t ∈ C ++ [user_turn w input st] → (tick st ≤ n)%nat →
                       float_le (turn_ts t) (clock w n)) as Hbu.
        { intros t n [Ht|Ht]%elem_of_app Hn; [by apply Hbound|].
          apply list_elem_of_singleton in Ht as ->. by apply Hmono. }
        destruct (remote w (1 + tick st) _) as [|[content|]];
          try (eexists; split; [exact Hh1|]; split; [done|];
               intros t n Ht Hn; apply Hbu; [done|lia]).
        eexists. split; [exact Hh1|]. split.
        + apply timestamps_sorted_snoc; [done|]. intros t Ht. apply Hbu; [done|lia].
        + intros t n [Ht|Ht]%elem_of_app Hn; [apply Hbu; [done|lia]|].
          apply list_elem_of_singleton in Ht as ->. apply Hmono. lia.
      - exists []. split; [done|]. split.
        + by intros i j a b _ Hi.
        + by intros t n Ht%elem_of_nil.
      - exists C. split; [done|]. split; [done|].
        intros t n Ht Hn. apply Hbound; [done|]. simpl in Hn. lia. }
    destruct (handle w cfg a st) as [st1 log1]. cbn [fst] in *.
    destruct (IH st1 C1 Hmono HC1 Hs1 Hb1) as (C' & HC' & Hs').
    destruct (run w script st1) as [st2 log2]. by exists C'.
Qed.

(** C4. Clear leaves the empty conversation whatever the history was, and
    with persistence on no persisted file; a second Clear under the same
    settings changes nothing. *)
Theorem clear_empties_and_is_idempotent cfg st :
  let st1 := (handle_clear cfg st).1 in
  history st1 = of_conversation []
  ∧ disk st1 !! PERSIST_FILE
    = (if persist_to_disk cfg then None else disk st !! PERSIST_FILE)
  ∧ handle_clear cfg st1 = (st1, [st_success_cleared; st_rerun]).
Proof.
  unfold handle_clear. cbn [fst history disk tick].
  destruct (persist_to_disk cfg); cbn [andb]; [|done].
  destruct (decide (is_Some (disk st !! PERSIST_FILE))) as [Hs|Hn].
  - rewrite (bool_decide_true _ Hs). rewrite lookup_delete_eq.
    rewrite bool_decide_false; [done|]. by intros [? ?].
  - rewrite (bool_decide_false _ Hn). rewrite (bool_decide_false _ Hn).
    split; [done|]. split; [|done]. by apply eq_None_not_Some.
Qed.

(** C5, amended. When the text of the file is not JSON, or is JSON whose
    top-level value is not an object, [load_history] returns the empty
    conversation and shows a warning. *)
Theorem load_history_not_an_object (files : gmap string pystr) filename text :
  files !! filename = Some text →
  (∀ data, json_loads text ≠ Some (PDict data)) →
  ∃ e, load_history files filename = (of_conversation [], [st_warning_load e]).
Proof.
  intros Hf Hj. unfold load_history. rewrite Hf.
  destruct (json_loads text) as [[]|]; try by eauto. by destruct (Hj d).
Qed.

(** C6. Where no file exists, [load_history] returns the empty conversation
    and shows nothing. *)
Theorem load_history_missing_file (files : gmap string pystr) filename :
  files !! filename = None →
  load_history files filename = (of_conversation [], []).
Proof. intros H. unfold load_history. by rewrite H. Qed.


(** C8. A Send whose input is empty or made of white space only changes
    nothing: same history, same files, same instant, no remote call; the
    warning is all that happens. *)
Theorem send_blank_is_noop w cfg input st :
  forallb isspace input = true →
  handle_send w cfg input st = (st, [st_warning_empty]).
Proof. intros H. unfold handle_send. by rewrite strip_all_space. Qed.

(** C9. A Send with a non-blank input on a conversation calls the remote
    service once, with the persona's system prompt followed by the last 24
    turns of the conversation, the user turn just appended being the last
    of them: one message more than the smaller of 24 and the number of
    turns, so never more than 25. *)
Theorem send_prompt_window w cfg input st C :
  history st = of_conversation C → strip input ≠ [] →
  let C1 := C ++ [user_turn w input st] in
  let messages :=
    system_message (persona_system (persona cfg))
    :: (turn_message <$> drop (length C1 - 24) C1) in
  ∃ st' r log,
    handle_send w cfg input st = (st', completions_create messages r :: log)
    ∧ replies log = 0%nat ∧ failed_calls log = 0%nat
    ∧ length messages = S (length C1 `min` 24)
    ∧ (length messages ≤ 25)%nat
    ∧ last messages = Some (turn_message (user_turn w input st)).
Proof.
  intros HC Hin C1 messages.
  destruct (handle_send_conversation w cfg input st C HC Hin)
    as (st' & log & Hsend & Hr & Hf & _).
  exists st', (remote w (1 + tick st) (prompt cfg C1)), log.
  split; [exact Hsend|]. split; [done|]. split; [done|].
  assert (length messages = S (length C1 `min` 24)) as Hlen.
  { subst messages. cbn [length]. rewrite length_fmap, length_drop. lia. }
  split; [done|]. split; [lia|].
  subst messages C1. rewrite last_cons.
  assert (∃ l, drop (length (C ++ [user_turn w input st]) - 24)
                 (C ++ [user_turn w input st]) = l ++ [user_turn w input st])
    as [l ->].
  { rewrite length_app. cbn [length].
    destruct (decide (length C + 1 - 24 ≤ length C)%nat).
    - rewrite drop_app_le by lia. eauto.
    - lia. }
  rewrite fmap_app. change (turn_message <$> [?u]) with [turn_message u].
  by rewrite last_snoc.
Qed.

(** C10. When the text of the file is a JSON object, [load_history] returns
    the value under its [history] key as it is, whatever its shape, and the
    empty list when the key is absent; no warning is shown. *)
Theorem load_history_returns_history_key (files : gmap string pystr) filename text data :
  files !! filename = Some text →
  json_loads text = Some (PDict data) →
  load_history files filename
  = (match dict_get (py "history") data with
     | Some value => value
     | None => PList []
     end, []).
Proof. intros Hf Hj. unfold load_history. by rewrite Hf, Hj. Qed.

End Proofs.

(** * More of the handlers *)

Section MoreProofs.
Context {PF : PyFloat}.

(** Counting the remote calls of a log given in full. *)
Ltac count_calls := unfold replies, failed_calls; simpl; lia.

(** *** The Send handler, branch by branch *)

Lemma handle_send_blank w cfg input st :
  strip input = [] → handle_send w cfg input st = (st, [st_warning_empty]).
Proof. intros H. unfold handle_send. by rewrite H. Qed.

Lemma handle_send_not_list w cfg input st :
  is_list (history st) = false → strip input ≠ [] →
  handle_send w cfg input st = (st, [st_error_send AttributeError]).
Proof.
  intros Hl Hin. unfold handle_send.
  destruct (strip input) as [|c s]; [done|]. by destruct (history st).
Qed.

Lemma handle_send_list w cfg input st l :
  history st = PList l → strip input ≠ [] →
  handle_send w cfg input st
  = match build_messages (persona_system (persona cfg))
            (PList (l ++ [user_message w input st])) with
    | None =>
        ({| history := PList (l ++ [user_message w input st]);
            disk := disk st; tick := 1 + tick st |},
         [st_error_send KeyOrTypeError])
    | Some messages =>
        match remote w (1 + tick st) messages with
        | api_returns (Some content) =>
            let h2 :=
              PList ((l ++ [user_message w input st])
                     ++ [message (py "assistant") (strip content)
                           (clock w (2 + tick st))]) in
            if persist_to_disk cfg then
              ({| history := h2;
                  disk := (save_history (clock w (3 + tick st)) h2 PERSIST_FILE
                             (disk st)).1;
                  tick := 4 + tick st |},
               completions_create messages (api_returns (Some content))
               :: (save_history (clock w (3 + tick st)) h2 PERSIST_FILE (disk st)).2
               ++ [st_rerun])
            else
              ({| history := h2; disk := disk st; tick := 3 + tick st |},
               [completions_create messages (api_returns (Some content)); st_rerun])
        | api_returns None =>
            ({| history := PList (l ++ [user_message w input st]);
                disk := disk st; tick := 2 + tick st |},
             [completions_create messages (api_returns None);
              st_error_send AttributeError])
        | api_raises =>
            ({| history := PList (l ++ [user_message w input st]);
                disk := disk st; tick := 2 + tick st |},
             [completions_create messages api_raises; st_error_send APIError])
        end
    end.
Proof.
  intros Hl Hin. unfold handle_send, user_message. rewrite Hl.
  destruct (strip input) as [|c s] eqn:E; [done|]. cbn [append_message].
  destruct (build_messages _ _) as [messages|]; [|done].
  destruct (remote w (1 + tick st) messages) as [|[content|]]; try done.
  cbv zeta. destruct (persist_to_disk cfg); [|done].
  by destruct (save_history _ _ _ _).
Qed.

(** X1. Whatever the state and the input, a Send never rewrites the
    history: it leaves it as it is, or it is a list and the Send puts the
    user message at its end, followed by at most one more message. *)
Theorem send_only_appends w cfg input st :
  history (handle_send w cfg input st).1 = history st
  ∨ ∃ l extra,
      history st = PList l
      ∧ history (handle_send w cfg input st).1
        = PList (l ++ user_message w input st :: extra)
      ∧ (length extra ≤ 1)%nat.
Proof.
  destruct (decide (strip input = [])) as [Hb|Hin];
    [left; by rewrite handle_send_blank|].
  destruct (is_list (history st)) eqn:Hl;
    [|left; by rewrite handle_send_not_list].
  destruct (history st) as [| | | | |l|] eqn:Eh; try done.
  right. exists l. rewrite (handle_send_list _ _ _ _ l Eh Hin).
  destruct (build_messages _ _) as [messages|];
    [|exists []; cbn [fst history length]; repeat split; lia].
  destruct (remote w (1 + tick st) messages) as [|[content|]];
    [exists []; cbn [fst history length]; repeat split; lia|
    |exists []; cbn [fst history length]; repeat split; lia].
  eexists [_]. split; [done|]. split; [|cbn [length]; lia].
  cbv zeta. destruct (persist_to_disk cfg); cbn [fst history]; by rewrite <- app_assoc.
Qed.

(** X2. The files change in one way only: a Send that got a reply, with
    persistence on, rewrites the persisted file. Every other Send, whatever
    the state, leaves the files as they are. *)
Theorem send_writes_only_after_reply w cfg input st :
  disk (handle_send w cfg input st).1 = disk st
  ∨ (persist_to_disk cfg = true
     ∧ replies (handle_send w cfg input st).2 = 1%nat
     ∧ ∃ text, disk (handle_send w cfg input st).1
               = <[PERSIST_FILE := text]> (disk st)).
Proof.
  destruct (decide (strip input = [])) as [Hb|Hin];
    [left; by rewrite handle_send_blank|].
  destruct (is_list (history st)) eqn:Hl;
    [|left; by rewrite handle_send_not_list].
  destruct (history st) as [| | | | |l|] eqn:Eh; try done.
  rewrite (handle_send_list _ _ _ _ l Eh Hin).
  destruct (build_messages _ _) as [messages|]; [|by left].
  destruct (remote w (1 + tick st) messages) as [|[content|]]; [by left| |by left].
  cbv zeta. destruct (persist_to_disk cfg); [right|by left].
  split; [done|]. cbn [fst snd disk].
  destruct (save_history_log (clock w (3 + tick st))
              (PList ((l ++ [user_message w input st])
                      ++ [message (py "assistant") (strip content)
                            (clock w (2 + tick st))]))
              PERSIST_FILE (disk st)) as [Hr _].
  split.
  - rewrite replies_cons, replies_app, Hr. done.
  - unfold save_history. destruct (write_chunks _ _) as [text ok]. by exists text.
Qed.

(** X3. A script run makes at most one remote call, and only a Send makes
    one: along any script, from any state, the calls are no more than the
    Sends. *)
Theorem remote_calls_bounded w script : ∀ st,
  (replies (run w script st).2 + failed_calls (run w script st).2
   ≤ length (List.filter (λ ca, is_send ca.2) script))%nat.
Proof.
  induction script as [|[cfg a] script IH]; intros st;
    [unfold replies, failed_calls; simpl; lia|].
  cbn [run]. destruct (handle w cfg a st) as [st1 log1] eqn:E1.
  specialize (IH st1). destruct (run w script st1) as [st2 log2].
  cbn [fst snd] in *. rewrite replies_app, failed_calls_app.
  assert (replies log1 + failed_calls log1 ≤ (if is_send a then 1 else 0))%nat as H1.
  { destruct a as [input| |]; cbn [handle is_send] in *;
      [|unfold handle_clear in E1; injection E1 as <- <-; count_calls
       |unfold handle_export in E1; cbv zeta in E1; injection E1 as <- <-;
        destruct (utf8_encodable _); count_calls].
    destruct (decide (strip input = [])) as [Hb|Hin].
    { rewrite handle_send_blank in E1 by done. injection E1 as <- <-. count_calls. }
    destruct (is_list (history st)) eqn:Hl.
    2:{ rewrite handle_send_not_list in E1 by done. injection E1 as <- <-. count_calls. }
    destruct (history st) as [| | | | |l|] eqn:Eh; try done.
    rewrite (handle_send_list _ _ _ _ l Eh Hin) in E1.
    destruct (build_messages _ _) as [messages|];
      [|injection E1 as <- <-; count_calls].
    destruct (remote w (1 + tick st) messages) as [|[content|]];
      try (injection E1 as <- <-; count_calls).
    cbv zeta in E1. destruct (persist_to_disk cfg);
      [|injection E1 as <- <-; count_calls].
    match type of E1 with
    | context [save_history ?a ?b ?c ?d] =>
        destruct (save_history_log a b c d) as [Hr Hf];
        destruct (save_history a b c d) as [files slog]
    end.
    cbn [fst snd] in *. injection E1 as <- <-.
    rewrite replies_cons, failed_calls_cons, replies_app, failed_calls_app, Hr, Hf.
    count_calls. }
  cbn [List.filter snd]. destruct (is_send a); simpl; lia.
Qed.

(** *** When the remote service is called *)

Lemma mapM_turn_like (win : list pyval) :
  if forallb turn_like win
  then ∃ rest,
         mapM (λ h, r ← subscript h (py "role");
                    t ← subscript h (py "text");
                    Some (PDict [(py "role", r); (py "content", t)])) win = Some rest
         ∧ length rest = length win
  else mapM (λ h, r ← subscript h (py "role");
                  t ← subscript h (py "text");
                  Some (PDict [(py "role", r); (py "content", t)])) win = None.
Proof.
  induction win as [|h win IH]; [by exists []|].
  cbn [forallb mapM]. unfold turn_like at 1.
  destruct (subscript h (py "role")) as [r|]; [|done].
  destruct (subscript h (py "text")) as [t|]; [|done].
  cbn [andb mbind option_bind]. destruct (forallb turn_like win).
  - destruct IH as (rest & -> & Hlen). eexists. split; [done|]. simpl. by rewrite Hlen.
  - by rewrite IH.
Qed.

(** X4. A Send with a non-blank input on a history that is a list calls
    the remote service exactly when every one of the last 24 entries, the
    new user message included, has a role and a text; the request then
    holds the system prompt and one message per entry. When one entry of
    the window lacks a field, the user message stays appended, nothing is
    called or written, and an error is shown. Older entries do not matter. *)
Theorem send_calls_remote_iff_window_ok w cfg input st l :
  history st = PList l → strip input ≠ [] →
  if forallb turn_like (window l (user_message w input st))
  then ∃ rest log,
         (handle_send w cfg input st).2
         = completions_create
             (system_message (persona_system (persona cfg)) :: rest)
             (remote w (1 + tick st)
                (system_message (persona_system (persona cfg)) :: rest))
           :: log
         ∧ length rest = length (window l (user_message w input st))
  else handle_send w cfg input st
       = ({| history := PList (l ++ [user_message w input st]);
             disk := disk st; tick := 1 + tick st |},
          [st_error_send KeyOrTypeError]).
Proof.
  intros Hl Hin. rewrite (handle_send_list _ _ _ _ l Hl Hin).
  unfold build_messages, window.
  pose proof (mapM_turn_like
                (drop (length (l ++ [user_message w input st]) - 24)
                   (l ++ [user_message w input st]))) as H.
  destruct (forallb turn_like _).
  - destruct H as (rest & -> & Hlen). cbn [mbind option_bind].
    exists rest. fold (system_message (persona_system (persona cfg))).
    destruct (remote w (1 + tick st) _) as [|[content|]]; [by eexists| |by eexists].
    cbv zeta. destruct (persist_to_disk cfg); by eexists.
  - by rewrite H.
Qed.

(** X5. A history that is not a list (as a file can give) stays: as long as
    Clear is not pressed, no Send adds anything to it, none reaches the
    remote service, and the files are left alone. *)
Theorem not_a_list_history_stays w script : ∀ st,
  is_list (history st) = false →
  forallb (λ ca, negb (is_clear ca.2)) script = true →
  history (run w script st).1 = history st
  ∧ disk (run w script st).1 = disk st
  ∧ (replies (run w script st).2 + failed_calls (run w script st).2 = 0)%nat.
Proof.
  induction script as [|[cfg a] script IH]; intros st Hl Hs.
  - repeat split; try count_calls.
  - cbn [forallb snd] in Hs. apply andb_prop in Hs as [Ha Hs]. cbn [run].
    assert (history (handle w cfg a st).1 = history st
            ∧ disk (handle w cfg a st).1 = disk st
            ∧ (replies (handle w cfg a st).2
               + failed_calls (handle w cfg a st).2 = 0)%nat) as (Hh & Hd & Hc).
    { destruct a as [input| |];
        [|done
         |cbn [handle]; unfold handle_export; cbv zeta; cbn [fst snd history disk];
          repeat split; destruct (utf8_encodable _); count_calls].
      cbn [handle].
      destruct (decide (strip input = [])) as [Hb|Hin].
      - rewrite handle_send_blank by done. repeat split; try count_calls.
      - rewrite handle_send_not_list by done. repeat split; try count_calls. }
    destruct (handle w cfg a st) as [st1 log1]. cbn [fst snd] in *.
    destruct (IH st1 ltac:(by rewrite Hh) Hs) as (IHh & IHd & IHc).
    destruct (run w script st1) as [st2 log2]. cbn [fst snd] in *.
    rewrite replies_app, failed_calls_app. repeat split; [congruence..|lia].
Qed.

(** *** Persistence *)

Lemma handle_disk_persist_off w cfg a st :
  persist_to_disk cfg = false → disk (handle w cfg a st).1 = disk st.
Proof.
  intros Hp. destruct a as [input| |]; cbn [handle]; [|by cbn; rewrite Hp|done].
  destruct (decide (strip input = [])) as [Hb|Hin]; [by rewrite handle_send_blank|].
  destruct (is_list (history st)) eqn:Hl; [|by rewrite handle_send_not_list].
  destruct (history st) as [| | | | |l|] eqn:Eh; try done.
  rewrite (handle_send_list _ _ _ _ l Eh Hin).
  destruct (build_messages _ _) as [messages|]; [|done].
  destruct (remote w (1 + tick st) messages) as [|[content|]]; try done.
  cbv zeta. by rewrite Hp.
Qed.

(** X6. With persistence off the program never touches the files: along
    any script run with the box unchecked, whatever is sent, cleared or
    exported, the files stay as they were. *)
Theorem persistence_off_leaves_files w script : ∀ st,
  forallb (λ ca, negb (persist_to_disk ca.1)) script = true →
  disk (run w script st).1 = disk st.
Proof.
  induction script as [|[cfg a] script IH]; intros st Hs; [done|].
  cbn [forallb fst] in Hs. apply andb_prop in Hs as [Hp%negb_true_iff Hs]. cbn [run].
  pose proof (handle_disk_persist_off w cfg a st Hp) as Hd.
  destruct (handle w cfg a st) as [st1 log1]. specialize (IH st1 Hs).
  destruct (run w script st1) as [st2 log2]. cbn [fst] in *. congruence.
Qed.

Lemma forallb_reverse {A} (P : A → bool) l : forallb P (reverse l) = forallb P l.
Proof.
  induction l as [|x l IH]; [done|].
  rewrite reverse_cons, forallb_app, IH. simpl. by rewrite andb_true_r, andb_comm.
Qed.

Lemma forallb_lstrip (P : N → bool) s : forallb P s = true → forallb P (lstrip s) = true.
Proof.
  induction s as [|c s IH]; [done|]. intros H. cbn [lstrip].
  destruct (isspace c); [|done]. apply IH. simpl in H. by apply andb_prop in H as [_ ?].
Qed.

Lemma encodable_strip s : utf8_encodable s = true → utf8_encodable (strip s) = true.
Proof.
  unfold utf8_encodable, strip, rstrip. intros H.
  rewrite forallb_reverse. apply forallb_lstrip. rewrite forallb_reverse.
  by apply forallb_lstrip.
Qed.

Lemma Forall_and_split {A} (P Q : A → Prop) l :
  Forall (λ x, P x ∧ Q x) l → Forall P l ∧ Forall Q l.
Proof. intros H. split; eapply Forall_impl; try exact H; by intros ? []. Qed.

(** What a replied Send writes, with persistence on, when everything in the
    conversation can be written. *)
Lemma handle_send_persists w cfg input st C content :
  history st = of_conversation C → strip input ≠ [] →
  persist_to_disk cfg = true →
  remote w (1 + tick st) (prompt cfg (C ++ [user_turn w input st]))
  = api_returns (Some content) →
  float_roundtrips (clock w (tick st)) → float_roundtrips (clock w (2 + tick st)) →
  float_roundtrips (clock w (3 + tick st)) →
  Forall (λ t, float_roundtrips (turn_ts t) ∧ utf8_encodable (turn_text t) = true) C →
  utf8_encodable input = true → utf8_encodable content = true →
  let C2 := C ++ [user_turn w input st; assistant_turn w content st] in
  history (handle_send w cfg input st).1 = of_conversation C2
  ∧ Forall (λ t, float_roundtrips (turn_ts t) ∧ utf8_encodable (turn_text t) = true) C2
  ∧ disk (handle_send w cfg input st).1
    = <[PERSIST_FILE := json_dumps (snapshot (clock w (3 + tick st)) (of_conversation C2))]>
        (disk st).
Proof.
  intros HC Hin Hp Hr Hc0 Hc2 Hc3 HCok Hinput Hcontent C2.
  assert (Forall (λ t, float_roundtrips (turn_ts t)
                       ∧ utf8_encodable (turn_text t) = true) C2) as HC2.
  { apply Forall_app. split; [done|].
    repeat constructor; try done; by apply encodable_strip. }
  assert (build_messages (persona_system (persona cfg))
            (PList ((of_turn <$> C) ++ [user_message w input st]))
          = Some (prompt cfg (C ++ [user_turn w input st]))) as Hbm.
  { change [user_message w input st] with (of_turn <$> [user_turn w input st]).
    rewrite <- fmap_app. apply build_messages_conversation. }
  assert (PList (((of_turn <$> C) ++ [user_message w input st])
                 ++ [message (py "assistant") (strip content) (clock w (2 + tick st))])
          = of_conversation C2) as Hh2.
  { unfold C2, of_conversation. by rewrite fmap_app, <- app_assoc. }
  rewrite (handle_send_list _ _ _ _ (of_turn <$> C) HC Hin), Hbm, Hr.
  cbv zeta. rewrite Hp, Hh2.
  apply Forall_and_split in HC2 as HC2'. destruct HC2' as [Hts Htx].
  rewrite save_history_ok
    by (done || by apply conversation_ok || by apply conversation_encodable).
  done.
Qed.

(** X7. What a Send saves is what the next session finds: after a Send
    that got a reply with persistence on, on a conversation whose texts
    UTF-8 can encode (the input and the reply too) and whose timestamps
    are finite, a session started with persistence on loads exactly the
    conversation the Send left in memory, with no warning. *)
Theorem send_then_restart_reloads w cfg cfg' input st C content now :
  history st = of_conversation C → strip input ≠ [] →
  persist_to_disk cfg = true → persist_to_disk cfg' = true →
  remote w (1 + tick st) (prompt cfg (C ++ [user_turn w input st]))
  = api_returns (Some content) →
  float_roundtrips (clock w (tick st)) → float_roundtrips (clock w (2 + tick st)) →
  float_roundtrips (clock w (3 + tick st)) →
  Forall (λ t, float_roundtrips (turn_ts t) ∧ utf8_encodable (turn_text t) = true) C →
  utf8_encodable input = true → utf8_encodable content = true →
  session_start cfg' (disk (handle_send w cfg input st).1) now
  = ({| history := history (handle_send w cfg input st).1;
        disk := disk (handle_send w cfg input st).1; tick := now |}, []).
Proof.
  intros HC Hin Hp Hp' Hr Hc0 Hc2 Hc3 HCok Hinput Hcontent.
  destruct (handle_send_persists w cfg input st C content HC Hin Hp Hr Hc0 Hc2 Hc3 HCok
              Hinput Hcontent) as (Hh & HC2 & Hd).
  unfold session_start. rewrite Hp', Hd, Hh.
  apply Forall_and_split in HC2 as [Hts _].
  rewrite load_saved; [done|done|by apply conversation_ok].
Qed.

Lemma clear_removes_file cfg st :
  persist_to_disk cfg = true → disk (handle_clear cfg st).1 !! PERSIST_FILE = None.
Proof.
  intros Hp. unfold handle_clear. cbn [fst disk]. rewrite Hp. cbn [andb].
  destruct (decide (is_Some (disk st !! PERSIST_FILE))) as [Hs|Hn].
  - rewrite (bool_decide_true _ Hs). apply lookup_delete_eq.
  - rewrite (bool_decide_false _ Hn). by apply eq_None_not_Some.
Qed.

(** X8. After a Clear with persistence on, the next session starts empty
    and without a warning, whatever was persisted before and whether or
    not the new session has persistence on. *)
Theorem clear_then_restart_is_empty cfg cfg' st now :
  persist_to_disk cfg = true →
  session_start cfg' (disk (handle_clear cfg st).1) now
  = ({| history := PList []; disk := disk (handle_clear cfg st).1; tick := now |}, []).
Proof.
  intros Hp. unfold session_start, load_history.
  rewrite (clear_removes_file cfg st Hp). by destruct (persist_to_disk cfg').
Qed.

(** X9. A Clear with persistence off empties the conversation in memory
    only: the persisted file stays, and a later session with persistence on
    starts on the conversation that was saved, not on the empty one. *)
Theorem clear_without_persistence_keeps_file cfg cfg' st saved_at (C : list Turn) now :
  persist_to_disk cfg = false → persist_to_disk cfg' = true →
  disk st !! PERSIST_FILE = Some (json_dumps (snapshot saved_at (of_conversation C))) →
  float_roundtrips saved_at →
  Forall (λ t, float_roundtrips (turn_ts t)) C →
  history (handle_clear cfg st).1 = PList []
  ∧ history (session_start cfg' (disk (handle_clear cfg st).1) now).1 = of_conversation C.
Proof.
  intros Hp Hp' Hfile Hnow Hts. split; [done|].
  unfold handle_clear, session_start. cbn [fst disk]. rewrite Hp, Hp'. cbn [andb].
  rewrite <- (insert_id (disk st) _ _ Hfile), load_saved;
    [done|done|by apply conversation_ok].
Qed.

(** *** What a save leaves in the file *)

Lemma write_chunks_spec chunks : ∀ written,
  ∃ more,
    (write_chunks chunks written).1 = written ++ more
    ∧ more `prefix_of` concat chunks
    ∧ utf8_encodable more = true
    ∧ if (write_chunks chunks written).2 then more = concat chunks
      else utf8_encodable (concat chunks) = false.
Proof.
  induction chunks as [|c cs IH]; intros written; cbn [write_chunks concat].
  - exists []. by rewrite app_nil_r.
  - destruct (utf8_encodable c) eqn:Ec.
    + destruct (IH (written ++ c)) as (more & Hw & Hp & He & Hok).
      exists (c ++ more). rewrite Hw, <- app_assoc, !encodable_app, Ec, He.
      repeat split; [by apply prefix_app|].
      destruct (write_chunks cs (written ++ c)).2; [by rewrite Hok|by rewrite Hok].
    + exists []. rewrite app_nil_r, encodable_app, Ec. repeat split. apply prefix_nil.
Qed.

(** X10. [save_history] never raises and always replaces the file: by the
    whole JSON text of the snapshot, with nothing shown, or, when a text of
    the snapshot cannot be encoded in UTF-8, by a prefix of it that stops
    before the offending chunk, with the error shown. Whatever the file
    held before is gone in both cases. *)
Theorem save_history_overwrites now h filename (files : gmap string pystr) :
  ∃ text,
    (save_history now h filename files).1 = <[filename := text]> files
    ∧ text `prefix_of` json_dumps (snapshot now h)
    ∧ utf8_encodable text = true
    ∧ ((save_history now h filename files).2 = []
       ∧ text = json_dumps (snapshot now h)
       ∨ (save_history now h filename files).2 = [st_error_save UnicodeEncodeError]
         ∧ utf8_encodable (json_dumps (snapshot now h)) = false).
Proof.
  unfold save_history, json_dumps.
  destruct (write_chunks_spec (iterencode 0 (snapshot now h)) [])
    as (text & Hw & Hp & He & Hok).
  rewrite concat_iterencode in Hp, Hok. fold (snapshot now h).
  destruct (write_chunks _ _) as [written ok]. cbn [fst snd app] in *. subst written.
  exists text. repeat split; try done. destruct ok; [by left|by right].
Qed.

(** *** What every conversation of a session looks like *)

Lemma handle_send_failed w cfg input st C :
  history st = of_conversation C → strip input ≠ [] →
  (∀ content, remote w (1 + tick st) (prompt cfg (C ++ [user_turn w input st]))
              ≠ api_returns (Some content)) →
  ∃ e, handle_send w cfg input st
       = ({| history := of_conversation (C ++ [user_turn w input st]);
             disk := disk st; tick := 2 + tick st |},
          [completions_create (prompt cfg (C ++ [user_turn w input st]))
             (remote w (1 + tick st) (prompt cfg (C ++ [user_turn w input st])));
           st_error_send e]).
Proof.
  intros HC Hin Hr.
  assert (build_messages (persona_system (persona cfg))
            (PList ((of_turn <$> C) ++ [user_message w input st]))
          = Some (prompt cfg (C ++ [user_turn w input st]))) as Hbm.
  { change [user_message w input st] with (of_turn <$> [user_turn w input st]).
    rewrite <- fmap_app. apply build_messages_conversation. }
  assert (PList ((of_turn <$> C) ++ [user_message w input st])
          = of_conversation (C ++ [user_turn w input st])) as Hh1.
  { unfold of_conversation. by rewrite fmap_app. }
  rewrite (handle_send_list _ _ _ _ (of_turn <$> C) HC Hin), Hbm, Hh1.
  destruct (remote w (1 + tick st) _) as [|[content|]]; [by eexists| |by eexists].
  by destruct (Hr content).
Qed.

Lemma handle_conversation w cfg a st C :
  history st = of_conversation C →
  history (handle w cfg a st).1 = of_conversation C
  ∨ history (handle w cfg a st).1 = of_conversation []
  ∨ ∃ input,
      a = Send input ∧ strip input ≠ []
      ∧ (history (handle w cfg a st).1 = of_conversation (C ++ [user_turn w input st])
         ∨ ∃ content,
             remote w (1 + tick st) (prompt cfg (C ++ [user_turn w input st]))
             = api_returns (Some content)
             ∧ history (handle w cfg a st).1
               = of_conversation
                   ((C ++ [user_turn w input st]) ++ [assistant_turn w content st])).
Proof.
  intros HC. destruct a as [input| |]; cbn [handle]; [|by right; left|by left].
  destruct (decide (strip input = [])) as [Hb|Hin].
  { rewrite handle_send_blank by done. by left. }
  right; right. exists input. split; [done|]. split; [done|].
  destruct (handle_send_conversation w cfg input st C HC Hin)
    as (st1 & log1 & -> & _ & _ & Hh1 & _). cbn [fst].
  destruct (remote w (1 + tick st) _) as [|[content|]]; [by left| |by left].
  right. by exists content.
Qed.

Lemma handle_invariant w (P : list Turn → Prop) :
  P [] →
  (∀ C input st, strip input ≠ [] → P C → P (C ++ [user_turn w input st])) →
  (∀ C input content st, strip input ≠ [] → P C →
     P ((C ++ [user_turn w input st]) ++ [assistant_turn w content st])) →
  ∀ cfg a st C, history st = of_conversation C → P C →
  ∃ C1, history (handle w cfg a st).1 = of_conversation C1 ∧ P C1.
Proof.
  intros Hnil Huser Hboth cfg a st C HC HP.
  destruct a as [input| |]; cbn [handle]; [|by exists []|by exists C].
  destruct (decide (strip input = [])) as [Hb|Hin].
  { rewrite handle_send_blank by done. by exists C. }
  destruct (handle_send_conversation w cfg input st C HC Hin)
    as (st1 & log1 & -> & _ & _ & Hh1 & _). cbn [fst].
  eexists. split; [exact Hh1|].
  destruct (remote w (1 + tick st) _) as [|[content|]]; auto.
Qed.

Lemma run_invariant w (P : list Turn → Prop) :
  P [] →
  (∀ C input st, strip input ≠ [] → P C → P (C ++ [user_turn w input st])) →
  (∀ C input content st, strip input ≠ [] → P C →
     P ((C ++ [user_turn w input st]) ++ [assistant_turn w content st])) →
  ∀ script st C, history st = of_conversation C → P C →
  ∃ C', history (run w script st).1 = of_conversation C' ∧ P C'.
Proof.
  intros Hnil Huser Hboth. induction script as [|[cfg a] script IH]; intros st C HC HP.
  - by exists C.
  - cbn [run].
    destruct (handle_invariant w P Hnil Huser Hboth cfg a st C HC HP) as (C1 & HC1 & HP1).
    destruct (handle w cfg a st) as [st1 log1]. cbn [fst] in *.
    destruct (IH st1 C1 HC1 HP1) as (C' & HC' & HP').
    destruct (run w script st1) as [st2 log2]. by exists C'.
Qed.

Lemma replies_follow_snoc_user C u : ∀ b,
  turn_role u = user → replies_follow b (C ++ [u]) = replies_follow b C.
Proof.
  induction C as [|t C IH]; intros b Hu; cbn [app replies_follow].
  - by rewrite Hu.
  - destruct (turn_role t); by rewrite IH.
Qed.

Lemma replies_follow_snoc_pair C u a : ∀ b,
  turn_role u = user → turn_role a = assistant →
  replies_follow b ((C ++ [u]) ++ [a]) = replies_follow b C.
Proof.
  induction C as [|t C IH]; intros b Hu Ha; cbn [app replies_follow].
  - by rewrite Hu, Ha.
  - destruct (turn_role t); by rewrite IH.
Qed.

(** X11. In a session, replies stay paired with questions: from a
    conversation in which every assistant turn comes right after a user turn
    (the empty one, for instance), every conversation reached by Send, Clear
    and Export is such a conversation; no failure of the remote service and
    no Clear puts two assistant turns in a row or an assistant turn first. *)
Theorem replies_follow_questions w script st C :
  history st = of_conversation C → replies_follow false C = true →
  ∃ C', history (run w script st).1 = of_conversation C'
        ∧ replies_follow false C' = true.
Proof.
  apply (run_invariant w (λ C, replies_follow false C = true)); [done|..].
  - intros C0 input st0 _ H. by rewrite replies_follow_snoc_user.
  - intros C0 input content st0 _ H. by rewrite replies_follow_snoc_pair.
Qed.

Lemma lstrip_fixed s :
  match s with [] => True | c :: _ => isspace c = false end → lstrip s = s.
Proof. destruct s as [|c r]; [done|]. simpl. by intros ->. Qed.

Lemma lstrip_head s :
  match lstrip s with [] => True | c :: _ => isspace c = false end.
Proof.
  induction s as [|c r IH]; [done|]. simpl. destruct (isspace c) eqn:E; [done|].
  by rewrite E.
Qed.

Lemma lstrip_suffix s : ∃ k, s = k ++ lstrip s.
Proof.
  induction s as [|c r [k IH]]; [by exists []|]. simpl.
  destruct (isspace c); [|by exists []]. exists (c :: k). simpl. by rewrite <- IH.
Qed.

Lemma strip_strip s : strip (strip s) = strip s.
Proof.
  unfold strip, rstrip.
  pose proof (lstrip_head s) as Ha. set (a := lstrip s) in *.
  pose proof (lstrip_head (reverse a)) as Hb.
  destruct (lstrip_suffix (reverse a)) as [k Hk]. set (b := lstrip (reverse a)) in *.
  assert (lstrip (reverse b) = reverse b) as ->.
  { apply lstrip_fixed. destruct b as [|c b'] using rev_ind; [done|].
    rewrite reverse_snoc.
    assert (a = c :: reverse (k ++ b')) as Ea.
    { rewrite <- (reverse_involutive a), Hk, app_assoc, reverse_snoc. done. }
    by rewrite Ea in Ha. }
  rewrite reverse_involutive. f_equal. by apply lstrip_fixed.
Qed.

(** X12. In a session, the texts of the conversation stay trimmed: from a
    conversation whose texts have no white space at either end and whose
    user texts are not empty, every conversation reached by Send, Clear and
    Export is such a conversation. A reply of white space only is kept, as
    an assistant turn with the empty text. *)
Theorem texts_stay_trimmed w script st C :
  history st = of_conversation C → Forall trimmed C →
  ∃ C', history (run w script st).1 = of_conversation C' ∧ Forall trimmed C'.
Proof.
  apply (run_invariant w (Forall trimmed)); [done|..].
  - intros C0 input st0 Hin H. apply Forall_app. split; [done|].
    repeat constructor; [apply strip_strip|done].
  - intros C0 input content st0 Hin H. rewrite !Forall_app. repeat split; [done|..].
    + repeat constructor; [apply strip_strip|done].
    + repeat constructor; [apply strip_strip|done].
Qed.

(** X13. A Send the remote service fails keeps the user turn in memory
    only: nothing is written, so a session started afterwards with
    persistence on finds the conversation as it was last saved, without
    the turn the user still sees. *)
Theorem failed_send_is_not_persisted w cfg cfg' input st C saved_at now :
  history st = of_conversation C → strip input ≠ [] →
  (∀ content, remote w (1 + tick st) (prompt cfg (C ++ [user_turn w input st]))
              ≠ api_returns (Some content)) →
  persist_to_disk cfg' = true →
  disk st !! PERSIST_FILE = Some (json_dumps (snapshot saved_at (of_conversation C))) →
  float_roundtrips saved_at →
  Forall (λ t, float_roundtrips (turn_ts t)) C →
  history (handle_send w cfg input st).1 = of_conversation (C ++ [user_turn w input st])
  ∧ history (session_start cfg' (disk (handle_send w cfg input st).1) now).1
    = of_conversation C.
Proof.
  intros HC Hin Hr Hp' Hfile Hnow Hts.
  destruct (handle_send_failed w cfg input st C HC Hin Hr) as [e ->].
  split; [done|]. cbn [fst disk]. unfold session_start. rewrite Hp'.
  rewrite <- (insert_id (disk st) _ _ Hfile), load_saved;
    [done|done|by apply conversation_ok].
Qed.

(** *** A text the scanner has read is read the same with more after it *)

Lemma skip_ws_app s q c r : skip_ws s = c :: r → skip_ws (s ++ q) = (c :: r) ++ q.
Proof.
  induction s as [|a s IH]; [done|]. cbn [skip_ws app].
  destruct (is_ws a); [exact IH|]. by intros [= <- <-].
Qed.

Lemma skip_ws_nil s : skip_ws s = [] → forallb is_ws s = true.
Proof.
  induction s as [|a s IH]; [done|]. cbn [skip_ws forallb].
  destruct (is_ws a); [exact IH|done].
Qed.

Lemma strip_prefix_app lit : ∀ p q r,
  strip_prefix lit p = Some r → strip_prefix lit (p ++ q) = Some (r ++ q).
Proof.
  induction lit as [|a lit IH]; intros p q r H.
  - destruct p; by injection H as <-.
  - destruct p as [|b p]; [done|]. cbn [strip_prefix app] in *.
    destruct (a =? b); [by apply IH|done].
Qed.

Lemma hex4_app s q u r : hex4 s = Some (u, r) → hex4 (s ++ q) = Some (u, r ++ q).
Proof.
  destruct s as [|a [|b [|c [|d s]]]]; try done. cbn [hex4 app].
  destruct (hexval a), (hexval b), (hexval c), (hexval d); try done.
  cbn [mbind option_bind]. by intros [= <- <-].
Qed.

Lemma scanstring_nil n : scanstring n [] = None.
Proof. by destruct n. Qed.

Lemma scanstring_app n : ∀ p q t r,
  scanstring n p = Some (t, r) → scanstring n (p ++ q) = Some (t, r ++ q).
Proof.
  induction n as [|n IH]; intros p q t r H; [done|].
  destruct p as [|c p]; [done|]. cbn [scanstring app] in *.
  assert (∀ u s', prepend u (scanstring n s') = Some (t, r) →
                  prepend u (scanstring n (s' ++ q)) = Some (t, r ++ q)) as Hplain.
  { intros u s' Hu. unfold prepend in *.
    destruct (scanstring n s') as [[t' r']|] eqn:E; [|done].
    rewrite (IH _ q _ _ E). cbn [mbind option_bind] in *. by injection Hu as <- <-. }
  destruct (c =? 34); [by injection H as <- <-|].
  destruct (c =? 92).
  - destruct p as [|e r1]; [done|]. cbn [app]. destruct (e =? 117).
    + destruct (hex4 r1) as [[u r2]|] eqn:E; [|done]. rewrite (hex4_app _ q _ _ E).
      cbn [mbind option_bind] in *.
      destruct (is_high_surrogate u); [|by apply Hplain].
      destruct r2 as [|a [|b r3]].
      * by rewrite scanstring_nil in H.
      * assert ((a =? 92) = false) as Ha.
        { destruct n as [|n']; [done|]. cbn [scanstring prepend] in H.
          destruct (N.eqb_spec a 34) as [->|_]; [done|].
          destruct (a =? 92); [done|done]. }
        apply Hplain in H. cbn [app] in *. destruct q as [|b r3]; [done|].
        by rewrite Ha.
      * cbn [app].
        destruct ((a =? 92) && (b =? 117)); [|by apply (Hplain u (a :: b :: r3))].
        destruct (hex4 r3) as [[u2 r4]|] eqn:E3; [|done].
        rewrite (hex4_app _ q _ _ E3). cbn [mbind option_bind] in *.
        destruct (is_low_surrogate u2);
          [by apply Hplain|by apply (Hplain u (a :: b :: r3))].
    + destruct (unescape e); [|done]. cbn [mbind option_bind] in *. by apply Hplain.
  - destruct (c <? 32); [done|]. by apply Hplain.
Qed.

Lemma scan_str_app p q t r :
  scan_str p = Some (t, r) → scan_str (p ++ q) = Some (t, r ++ q).
Proof.
  unfold scan_str. intros H. apply (scanstring_mono (length p)).
  - rewrite length_app. lia.
  - by apply scanstring_app.
Qed.

(** **** Numbers: what follows must not go on with the number *)

Lemma number_int_none s rest :
  number_int s = None → number_end rest → number_int (s ++ rest) = None.
Proof.
  intros H Hrest. destruct s as [|c s]; cbn [app].
  - destruct rest as [|c r]; [done|]. cbn in Hrest.
    apply number_char_false in Hrest as (Hd & _). cbn [number_int]. rewrite Hd.
    destruct (N.eqb_spec c 48) as [->|_]; done.
  - cbn [number_int] in *. destruct (c =? 48); [done|].
    destruct (is_digit c); [|done]. by destruct (span_digits s).
Qed.

Lemma match_number_none s rest :
  match_number s = None → number_end rest → match_number (s ++ rest) = None.
Proof.
  unfold match_number. intros H Hrest.
  rewrite (number_sign_app _ _ Hrest). destruct (number_sign s) as [neg s1]. cbn [fst snd] in *.
  destruct (number_int s1) as [[ip s2]|] eqn:E.
  - cbn [mbind option_bind] in H.
    destruct (number_frac s2) as [frac s3]. destruct (number_exp s3) as [exp s4].
    by destruct frac, exp.
  - by rewrite (number_int_none _ _ E Hrest).
Qed.

Lemma match_number_extend p q v c r :
  match_number p = Some (v, c :: r) → is_number_char c = false →
  match_number (p ++ q) = Some (v, (c :: r) ++ q).
Proof.
  intros H Hc. destruct (match_number_spec _ _ _ H) as (_ & m & -> & _).
  assert (match_number m = Some (v, [])) as Hm.
  { destruct (match_number m) as [[v' r']|] eqn:E.
    - rewrite (match_number_app _ (c :: r) _ _ E Hc) in H. injection H as -> Hr.
      by apply (app_inv_tail _ r' []) in Hr as ->.
    - by rewrite (match_number_none _ (c :: r) E Hc) in H. }
  rewrite <- app_assoc. apply (match_number_app _ _ _ _ Hm). done.
Qed.

Lemma match_number_is_number s v r :
  match_number s = Some (v, r) →
  match v with PInt _ | PFloat _ => True | _ => False end.
Proof.
  unfold match_number. destruct (number_sign s) as [neg s1].
  destruct (number_int s1) as [[ip s2]|]; [|done]. cbn [mbind option_bind].
  destruct (number_frac s2) as [frac s3]. destruct (number_exp s3) as [exp s4].
  destruct frac, exp; by intros [= <- <-].
Qed.

(** **** Arrays, objects and values *)

Lemma delimited_before v s c r :
  skip_ws s = c :: r → is_number_char c = false → delimited v s.
Proof.
  intros Hs Hc.
  assert (match s with a :: _ => is_number_char a = false | [] => False end) as H.
  { destruct s as [|a s]; [done|]. cbn [skip_ws] in Hs.
    destruct (is_ws a) eqn:Ea; [|by injection Hs as -> _].
    unfold is_ws in Ea. rewrite !orb_true_iff, !N.eqb_eq in Ea.
    by destruct Ea as [[[->| ->]| ->]| ->]. }
  by destruct v.
Qed.

Lemma array_loop_app scan q n :
  reads_on scan q → ∀ p vs r,
  array_loop scan n p = Some (vs, r) → array_loop scan n (p ++ q) = Some (vs, r ++ q).
Proof.
  intros [Hnil Hscan]. induction n as [|n IH]; intros p vs r H; [done|].
  cbn [array_loop] in *.
  destruct (scan p) as [[v s1]|] eqn:E; [|done]. cbn [mbind option_bind] in *.
  destruct (skip_ws s1) as [|c r0] eqn:Es; [done|].
  assert (is_number_char c = false) as Hc.
  { destruct (N.eqb_spec c 93) as [->|_]; [done|].
    by destruct (N.eqb_spec c 44) as [->|_]. }
  rewrite (Hscan _ _ _ E (delimited_before _ _ _ _ Es Hc)). cbn [mbind option_bind].
  rewrite (skip_ws_app _ q _ _ Es). cbn [app].
  destruct (c =? 93); [by injection H as <- <-|]. destruct (c =? 44); [|done].
  destruct (array_loop scan n (skip_ws r0)) as [[vs' r']|] eqn:E2; [|done].
  cbn [mbind option_bind] in H. injection H as <- <-.
  destruct (skip_ws r0) as [|c' r''] eqn:Er.
  - destruct n; [done|]. cbn [array_loop] in E2. by rewrite Hnil in E2.
  - rewrite (skip_ws_app _ q _ _ Er), (IH _ _ _ E2). done.
Qed.

Lemma object_loop_app scan q n :
  reads_on scan q → ∀ p kvs r,
  object_loop scan n p = Some (kvs, r) → object_loop scan n (p ++ q) = Some (kvs, r ++ q).
Proof.
  intros [Hnil Hscan]. induction n as [|n IH]; intros p kvs r H; [done|].
  cbn [object_loop] in *. destruct p as [|c p]; [done|]. cbn [app].
  destruct (c =? 34); [|done].
  destruct (scan_str p) as [[k s1]|] eqn:Ek; [|done].
  rewrite (scan_str_app _ q _ _ Ek). cbn [mbind option_bind] in *.
  destruct (skip_ws s1) as [|c1 r1] eqn:E1; [done|].
  rewrite (skip_ws_app _ q _ _ E1). cbn [app].
  destruct (c1 =? 58); [|done].
  destruct (scan (skip_ws r1)) as [[v s2]|] eqn:Ev; [|done].
  cbn [mbind option_bind] in H.
  destruct (skip_ws s2) as [|c2 r2] eqn:E2; [done|].
  assert (is_number_char c2 = false) as Hc.
  { destruct (N.eqb_spec c2 125) as [->|_]; [done|].
    by destruct (N.eqb_spec c2 44) as [->|_]. }
  destruct (skip_ws r1) as [|c' r'] eqn:Er1; [by rewrite Hnil in Ev|].
  rewrite (skip_ws_app _ q _ _ Er1).
  rewrite (Hscan _ _ _ Ev (delimited_before _ _ _ _ E2 Hc)). cbn [mbind option_bind].
  rewrite (skip_ws_app _ q _ _ E2). cbn [app].
  destruct (c2 =? 125); [by injection H as <- <-|]. destruct (c2 =? 44); [|done].
  destruct (object_loop scan n (skip_ws r2)) as [[kvs' r'']|] eqn:El; [|done].
  cbn [mbind option_bind] in H. injection H as <- <-.
  destruct (skip_ws r2) as [|c3 r3] eqn:Er2.
  - by destruct n.
  - rewrite (skip_ws_app _ q _ _ Er2), (IH _ _ _ El). done.
Qed.

(** Source literals, computed. *)
Ltac py_literals :=
  repeat match goal with
         | |- context [py ?s] =>
             let v := eval vm_compute in (py s) in change (py s) with v
         end.

Lemma strip_prefix_head a lit c p r : strip_prefix (a :: lit) (c :: p) = Some r → c = a.
Proof. simpl. by destruct (N.eqb_spec a c). Qed.

Lemma scan_once_app q n : reads_on (scan_once n) q.
Proof.
  induction n as [|n IH]; [done|]. split; [done|]. intros p v r H Hd.
  destruct p as [|c p]; [done|].
  destruct (match_number (c :: p)) as [[v' r']|] eqn:Em.
  { destruct (match_number_spec _ _ _ Em) as [Hhd _].
    rewrite scan_once_number in H by done. rewrite Em in H. injection H as -> ->.
    rewrite scan_once_number by by apply number_head_app.
    pose proof (match_number_is_number _ _ _ Em) as Hv.
    destruct v; try done; destruct r as [|c' r]; try done;
      by apply match_number_extend. }
  cbn [scan_once app] in *.
  destruct (c =? 34).
  { destruct (scan_str p) as [[t r']|] eqn:E; [|done].
    rewrite (scan_str_app _ q _ _ E). cbn [mbind option_bind] in *.
    by injection H as <- <-. }
  destruct (c =? 123).
  { destruct (skip_ws p) as [|c1 r1] eqn:Es; [done|].
    rewrite (skip_ws_app _ q _ _ Es). cbn [app].
    destruct (c1 =? 125); [by injection H as <- <-|].
    destruct (object_loop _ n _) as [[kvs r']|] eqn:El; [|done].
    change (c1 :: r1 ++ q) with ((c1 :: r1) ++ q).
    rewrite (object_loop_app _ q n IH _ _ _ El). cbn [mbind option_bind] in *.
    by injection H as <- <-. }
  destruct (c =? 91).
  { destruct (skip_ws p) as [|c1 r1] eqn:Es; [done|].
    rewrite (skip_ws_app _ q _ _ Es). cbn [app].
    destruct (c1 =? 93); [by injection H as <- <-|].
    destruct (array_loop _ n _) as [[vs r']|] eqn:El; [|done].
    change (c1 :: r1 ++ q) with ((c1 :: r1) ++ q).
    rewrite (array_loop_app _ q n IH _ _ _ El). cbn [mbind option_bind] in *.
    by injection H as <- <-. }
  revert H. py_literals. intros H.
  repeat (match type of H with
          | match strip_prefix ?lit (c :: p) with _ => _ end = _ =>
              let E := fresh "E" in
              destruct (strip_prefix lit (c :: p)) as [r'|] eqn:E;
              [pose proof (strip_prefix_head _ _ _ _ _ E) as ->;
               pose proof (strip_prefix_app lit _ q _ E) as E';
               cbn [app] in E'; rewrite E'; rewrite ?strip_prefix_ne by done;
               by injection H as <- <-|]
          end).
  by rewrite Em in H.
Qed.

(** *** A save that fails *)

Lemma encodable_flat_map_inv sep xs :
  utf8_encodable (flat_map (app sep) xs) = true →
  Forall (λ x, utf8_encodable x = true) xs.
Proof.
  induction xs as [|x xs IH]; [done|]. cbn [flat_map].
  rewrite !encodable_app. intros [[_ Hx]%andb_prop Hxs]%andb_prop. auto.
Qed.

Lemma encodable_encode_inv v : ∀ level,
  utf8_encodable (encode level v) = true → py_encodable v = true.
Proof.
  induction v as [|b|z|x|s|l IH|d IH] using pyval_ind_nested; intros level H; try done.
  - cbn [encode py_encodable] in *. by rewrite encodable_basestring in H.
  - destruct l as [|x xs]; [done|]. cbn [encode join map] in H.
    rewrite !encodable_app in H.
    apply andb_prop in H as [_ [_ [[Hx Hxs]%andb_prop _]%andb_prop]%andb_prop].
    apply encodable_flat_map_inv in Hxs.
    inversion_clear IH as [|?? IHx IHxs]. cbn [py_encodable forallb].
    rewrite (IHx _ Hx). cbn [andb]. apply forallb_forall. intros y Hy%list_elem_of_In.
    eapply Forall_forall in IHxs; [|done]. apply (IHxs (S level)).
    rewrite Forall_forall in Hxs. apply Hxs. by apply list_elem_of_fmap_2.
  - destruct d as [|[k x] kvs]; [done|]. cbn [encode join map] in H.
    rewrite !encodable_app in H.
    apply andb_prop in H as [_ [_ [[Hkx Hxs]%andb_prop _]%andb_prop]%andb_prop].
    apply andb_prop in Hkx as [Hk [_ Hx]%andb_prop].
    rewrite encodable_basestring in Hk.
    apply encodable_flat_map_inv in Hxs.
    inversion_clear IH as [|?? IHx IHxs]. cbn [py_encodable forallb snd] in *.
    rewrite Hk, (IHx _ Hx). cbn [andb]. apply forallb_forall.
    intros [k' y] Hy%list_elem_of_In.
    rewrite Forall_forall in Hxs.
    specialize (Hxs _ (list_elem_of_fmap_2 _ _ _ Hy)). cbn beta iota in Hxs.
    rewrite !encodable_app, encodable_basestring in Hxs.
    apply andb_prop in Hxs as [-> [_ Hy']%andb_prop].
    eapply Forall_forall in IHxs; [|done]. exact (IHxs (S level) Hy').
Qed.

Lemma scan_once_brace n t v r : scan_once n (123 :: t) = Some (v, r) → delimited v r.
Proof.
  destruct n as [|n]; [done|]. cbn [scan_once].
  change (123 =? 34) with false. change (123 =? 123) with true. cbv iota.
  destruct (skip_ws t) as [|c1 r1]; [done|].
  destruct (c1 =? 125); [by intros [= <- <-]|].
  destruct (object_loop _ n _) as [[kvs r']|]; [|done]. by intros [= <- <-].
Qed.

Lemma skip_ws_brace t : skip_ws (123 :: t) = 123 :: t.
Proof. done. Qed.

(** A text that opens a brace and is cut before the end of a JSON document
    that closes one is not JSON. *)
Lemma json_loads_cut t q full :
  full = (123 :: t) ++ q → q ≠ [] → last full = Some 125 →
  is_Some (json_loads full) → json_loads (123 :: t) = None.
Proof.
  intros -> Hq Hlast [v Hfull].
  destruct (json_loads (123 :: t)) as [v'|] eqn:Ej; [exfalso|done].
  unfold json_loads in Ej, Hfull.
  change ((123 :: t) ++ q) with (123 :: (t ++ q)) in Hfull.
  rewrite skip_ws_brace in Ej, Hfull.
  generalize dependent (S (length (123 :: t))). intros n Ej.
  generalize dependent (S (length (123 :: t ++ q))). intros m Hfull.
  destruct (scan_once n (123 :: t)) as [[v1 r]|] eqn:Es; [|done].
  cbn [mbind option_bind] in Ej. destruct (skip_ws r) eqn:Er; [|done].
  destruct (scan_once m (123 :: t ++ q)) as [[v2 r2]|] eqn:Es2; [|done].
  cbn [mbind option_bind] in Hfull. destruct (skip_ws r2) eqn:Er2; [|done].
  destruct (scan_once_app q n) as [_ Happ].
  pose proof (Happ _ _ _ Es (scan_once_brace _ _ _ _ Es)) as Es'.
  cbn [app] in Es'.
  apply (scan_once_fuel (length (123 :: t ++ q)) _ _ _
           (S (length (123 :: t ++ q)))) in Es'; [|done|lia].
  apply (scan_once_fuel (length (123 :: t ++ q)) _ _ _
           (S (length (123 :: t ++ q)))) in Es2; [|done|lia].
  rewrite Es' in Es2. injection Es2 as _ <-.
  apply skip_ws_nil in Er2. rewrite forallb_app in Er2.
  apply andb_prop in Er2 as [_ Hq'].
  destruct q as [|a q _] using rev_ind; [done|].
  rewrite app_assoc, last_snoc in Hlast. injection Hlast as ->.
  rewrite forallb_app in Hq'. by apply andb_prop in Hq' as [_ ?].
Qed.

Lemma snapshot_text now h :
  ∃ t, encode 0 (snapshot now h) = 123 :: t
       ∧ last (encode 0 (snapshot now h)) = Some 125.
Proof.
  cbn [encode snapshot]. eexists. split; [reflexivity|].
  rewrite !app_assoc. apply last_snoc.
Qed.

Lemma snapshot_encodable now h :
  utf8_encodable (encode 0 (snapshot now h)) = true → py_encodable h = true.
Proof.
  intros E%encodable_encode_inv. cbn [snapshot py_encodable forallb] in E.
  by apply andb_prop in E as [_ [[_ E]%andb_prop _]%andb_prop].
Qed.

(** X19. A save that fails costs the whole file: when a text of the
    history cannot be encoded in UTF-8, [save_history] shows the error and
    leaves a file that is not JSON, whatever was saved before; the next
    [load_history] shows a warning and gives the empty conversation. *)
Theorem failed_save_loses_the_file now h filename (files : gmap string pystr) :
  float_roundtrips now → py_ok h → py_encodable h = false →
  (save_history now h filename files).2 = [st_error_save UnicodeEncodeError]
  ∧ load_history (save_history now h filename files).1 filename
    = (PList [], [st_warning_load JSONDecodeError]).
Proof.
  intros Hnow Hok Henc.
  pose proof (json_loads_dumps _ (snapshot_ok now h Hnow Hok)) as Hfull.
  pose proof (snapshot_encodable now h) as Hbad.
  destruct (snapshot_text now h) as (t0 & Hhead & Hlast).
  unfold save_history.
  destruct (write_chunks_spec (iterencode 0 (snapshot now h)) [])
    as (text & Hw & [q Hq] & He & Hflag).
  rewrite concat_iterencode in Hq, Hflag. fold (snapshot now h).
  unfold json_dumps in Hfull.
  generalize dependent (encode 0 (snapshot now h)). intros full Hfull Hbad Hhead Hlast Hq Hflag.
  destruct (write_chunks _ _) as [written ok]. cbn [fst snd app] in *. subst written.
  destruct ok.
  { rewrite Hflag in He. by rewrite (Hbad He) in Henc. }
  split; [done|]. unfold load_history. rewrite lookup_insert_eq.
  assert (json_loads text = None) as ->; [|done].
  destruct text as [|c t]; [done|].
  assert (c = 123) as -> by (rewrite Hq in Hhead; by injection Hhead as ->).
  apply (json_loads_cut t q full Hq); [|done|by rewrite Hfull].
  intros ->. rewrite app_nil_r in Hq. rewrite <- Hq in He. by rewrite (Hbad He) in Henc.
Qed.

End MoreProofs.


(** ** The conversation on the page *)

Section PageProofs.
Context {PF : PyFloat} {PT : PyTime} {SW : StWrite}.

Lemma render_loop_app w name l1 l2 : ∀ i,
  render_loop w name (l1 ++ l2) i
  = match render_loop w name l1 i with
    | (shown, None, j) =>
        let '(more, e, k) := render_loop w name l2 j in (shown ++ more, e, k)
    | stopped => stopped
    end.
Proof.
  induction l1 as [|msg l1 IH]; intros i; cbn [app render_loop].
  - by destruct (render_loop w name l2 i) as [[more e] k].
  - destruct msg as [| | | | | |d]; try done.
    destruct (strftime_localtime w i _) as [[ts|e] j]; [|done].
    destruct (st_write_returns _); [|done].
    rewrite IH. destruct (render_loop w name l1 j) as [[shown [e|]] k]; [done|].
    by destruct (render_loop w name l2 k) as [[more e] k'].
Qed.

Lemma render_turn w name t stamp rest i :
  strftime_float (turn_ts t) = Some stamp →
  utf8_encodable (turn_text t) = true →
  render_loop w name (of_turn t :: rest) i
  = let '(shown, e, k) := render_loop w name rest i in
    (turn_widgets name t stamp ++ shown, e, k).
Proof.
  intros Hs Ht. unfold of_turn, message. cbn [render_loop dict_get].
  repeat case_decide; try done.
  cbn [default from_option id strftime_localtime]. rewrite Hs, st_write_str, Ht.
  destruct (render_loop w name rest i) as [[shown e] k].
  unfold turn_widgets. cbn [app]. by destruct (turn_role t).
Qed.

Lemma render_loop_conversation w name C stamps i :
  Forall2 (λ t stamp, strftime_float (turn_ts t) = Some stamp) C stamps →
  Forall (λ t, utf8_encodable (turn_text t) = true) C →
  render_loop w name (of_turn <$> C) i
  = (concat (zip_with (turn_widgets name) C stamps), None, i).
Proof.
  induction 1 as [|t stamp C stamps Hs _ IH]; [done|].
  intros [Ht HC]%Forall_cons_1.
  cbn [fmap list_fmap]. rewrite (render_turn _ _ _ _ _ _ Hs Ht).
  change (list_fmap _ _ of_turn C) with (of_turn <$> C). by rewrite IH.
Qed.

(** X14. [render_chat] shows a conversation whole and in order when UTF-8
    can encode its texts and the calendar can format its time stamps: for
    every turn a header (You for a user turn, the name of the persona
    otherwise) with the formatted time, the text, and a rule; nothing is
    raised and the clock is not read. The empty conversation shows the one
    line that there are no messages. *)
Theorem render_chat_conversation w name C stamps i :
  Forall2 (λ t stamp, strftime_float (turn_ts t) = Some stamp) C stamps →
  Forall (λ t, utf8_encodable (turn_text t) = true) C →
  render_chat w i (of_conversation C) name
  = (match C with
     | [] => [st_info NO_MESSAGES]
     | _ => concat (zip_with (turn_widgets name) C stamps)
     end, None, i).
Proof.
  intros H Htx. destruct H as [|t stamp C stamps Hs H]; [done|].
  pose proof (render_loop_conversation w name (t :: C) (stamp :: stamps) i
                (List.Forall2_cons _ _ Hs H) Htx) as Hloop.
  unfold render_chat, of_conversation. by cbn [fmap list_fmap truthy iterate] in *.
Qed.

(** X15. [render_chat] stops at the first entry that is not a dict: the
    entries before it are on the page as they would be without it, the
    script run ends there on [AttributeError], and what comes after the
    entry plays no part. *)
Theorem render_chat_stops_at_non_dict w name before bad after shown i j :
  render_loop w name before i = (shown, None, j) →
  is_dict bad = false →
  render_chat w i (PList (before ++ bad :: after)) name
  = (shown, Some raise_AttributeError, j).
Proof.
  intros Hb Hbad. unfold render_chat.
  assert (truthy (PList (before ++ bad :: after)) = true) as -> by by destruct before.
  cbn [iterate]. rewrite render_loop_app, Hb.
  destruct bad; try done; cbn [render_loop]; by rewrite app_nil_r.
Qed.

Lemma render_loop_non_dict w name l : ∀ i,
  forallb is_dict l = false → ∃ shown e j, render_loop w name l i = (shown, Some e, j).
Proof.
  induction l as [|msg l IH]; intros i H; [done|].
  destruct msg as [| | | | | |d]; try by eexists _, _, _.
  cbn [forallb is_dict andb] in H. cbn [render_loop].
  destruct (strftime_localtime w i _) as [[ts|e] j]; [|by eexists _, _, _].
  destruct (st_write_returns _); [|by eexists _, _, _].
  destruct (IH j H) as (shown & e & k & ->). by eexists _, _, _.
Qed.

Lemma render_chat_unrenderable w name h i :
  unrenderable h = true → ∃ shown e j, render_chat w i h name = (shown, Some e, j).
Proof.
  unfold unrenderable, render_chat. intros [Ht H]%andb_prop. rewrite Ht.
  destruct h as [|b|z|x|s|l|d]; cbn [iterate]; try by eexists _, _, _.
  - destruct s as [|c s]; [done|]. by eexists _, _, _.
  - apply render_loop_non_dict. by apply negb_true_iff.
  - destruct d as [|[k v] d]; [done|]. by eexists _, _, _.
Qed.

(** X16. A history that is not a list never gets a message on the page:
    when it is false ([None], zero, empty) the page says there are no
    messages, and when it is true the run ends on an exception before
    anything is shown. *)
Theorem render_chat_not_a_list w name h i :
  is_list h = false →
  if truthy h
  then ∃ e, render_chat w i h name = ([], Some e, i)
  else render_chat w i h name = ([st_info NO_MESSAGES], None, i).
Proof.
  intros Hl. unfold render_chat. destruct (truthy h) eqn:Ht; [|done].
  destruct h as [|b|z|x|s|l|d]; cbn [iterate]; try done; try by eexists.
  - destruct s as [|c s]; [done|]. by eexists.
  - destruct d as [|[k v] d]; [done|]. by eexists.
Qed.

Lemma script_runs_blocked w script : ∀ st,
  (∀ name i, ∃ shown e j, render_chat w i (history st) name = (shown, Some e, j)) →
  history (script_runs w script st).1 = history st
  ∧ disk (script_runs w script st).1 = disk st
  ∧ Forall (λ out, (∃ e, out.1.2 = Some e) ∧ out.2 = []) (script_runs w script st).2.
Proof.
  induction script as [|[[cfg show_raw] pressed] script IH]; intros st Hu; [done|].
  cbn [script_runs]. unfold script_run.
  destruct (Hu (persona_name (persona cfg)) (tick st)) as (shown & e & j & ->).
  destruct (IH {| history := history st; disk := disk st; tick := j |} Hu)
    as (Hh & Hd & Hout).
  destruct (script_runs w script _) as [st2 outs]. cbn [fst snd] in *.
  repeat split; try done. constructor; [|done]. split; [by exists e|done].
Qed.

(** X17. A history that cannot be shown blocks the page: when the history
    is something true that is not a list, or a list with an entry that is
    not a dict, every script run ends in [render_chat], before the buttons;
    no handler runs, whatever is pressed, so the history and the files
    stay as they are, Clear included. *)
Theorem unrenderable_history_blocks_the_page w script : ∀ st,
  unrenderable (history st) = true →
  history (script_runs w script st).1 = history st
  ∧ disk (script_runs w script st).1 = disk st
  ∧ Forall (λ out, (∃ e, out.1.2 = Some e) ∧ out.2 = []) (script_runs w script st).2.
Proof.
  intros st Hu. apply script_runs_blocked. intros name i.
  by apply render_chat_unrenderable.
Qed.

Lemma render_turn_unencodable w name t stamp rest i :
  strftime_float (turn_ts t) = Some stamp →
  utf8_encodable (turn_text t) = false →
  render_loop w name (of_turn t :: rest) i
  = ([st_markdown (header (match turn_role t with
                           | user => py "You"
                           | assistant => name
                           end) stamp) true],
     Some raise_UnicodeEncodeError, i).
Proof.
  intros Hs Ht. unfold of_turn, message. cbn [render_loop dict_get].
  repeat case_decide; try done.
  cbn [default from_option id strftime_localtime]. rewrite Hs, st_write_str, Ht.
  by destruct (turn_role t).
Qed.

(** X20. [render_chat] stops at the first text UTF-8 cannot encode: the
    turns before it are on the page, then the header of the turn, and the
    script run ends there on [UnicodeEncodeError], raised by [st.write];
    the turns after it are not shown. *)
Theorem render_chat_stops_at_unencodable_text w name before t after stamps stamp i :
  Forall2 (λ t stamp, strftime_float (turn_ts t) = Some stamp) before stamps →
  Forall (λ t, utf8_encodable (turn_text t) = true) before →
  strftime_float (turn_ts t) = Some stamp →
  utf8_encodable (turn_text t) = false →
  render_chat w i (of_conversation (before ++ t :: after)) name
  = (concat (zip_with (turn_widgets name) before stamps)
     ++ [st_markdown (header (match turn_role t with
                              | user => py "You"
                              | assistant => name
                              end) stamp) true],
     Some raise_UnicodeEncodeError, i).
Proof.
  intros Hs Htx Hst Ht. unfold render_chat, of_conversation.
  assert (truthy (PList (of_turn <$> before ++ t :: after)) = true) as ->
    by by destruct before.
  cbn [iterate]. rewrite fmap_app, render_loop_app.
  rewrite (render_loop_conversation w name before stamps i Hs Htx).
  cbn [fmap list_fmap]. by rewrite (render_turn_unencodable _ _ _ _ _ _ Hst Ht).
Qed.

Lemma render_loop_unshowable w name C : ∀ i,
  Exists (λ t, utf8_encodable (turn_text t) = false) C →
  ∃ shown e j, render_loop w name (of_turn <$> C) i = (shown, Some e, j).
Proof.
  induction C as [|t C IH]; intros i H; [by apply Exists_nil in H|].
  cbn [fmap list_fmap].
  destruct (strftime_float (turn_ts t)) as [stamp|] eqn:Hs.
  - destruct (utf8_encodable (turn_text t)) eqn:Ht.
    + rewrite (render_turn _ _ _ _ _ _ Hs Ht).
      apply Exists_cons in H as [H|H]; [congruence|].
      destruct (IH i H) as (shown & e & j & ->). by eexists _, _, _.
    + rewrite (render_turn_unencodable _ _ _ _ _ _ Hs Ht). by eexists _, _, _.
  - unfold of_turn, message. cbn [render_loop dict_get].
    repeat case_decide; try done.
    cbn [default from_option id strftime_localtime]. rewrite Hs. by eexists _, _, _.
Qed.

(** X21. One text that cannot be shown blocks the page: when a turn of the
    conversation holds a text UTF-8 cannot encode (a reply of the remote
    service or a file can bring one), every script run ends in
    [render_chat], before the buttons; no handler runs, whatever is
    pressed, so the conversation and the files stay as they are, Clear
    included. *)
Theorem unshowable_text_blocks_the_page w script st C :
  history st = of_conversation C →
  Exists (λ t, utf8_encodable (turn_text t) = false) C →
  history (script_runs w script st).1 = history st
  ∧ disk (script_runs w script st).1 = disk st
  ∧ Forall (λ out, (∃ e, out.1.2 = Some e) ∧ out.2 = []) (script_runs w script st).2.
Proof.
  intros HC Hbad. apply script_runs_blocked. intros name i.
  rewrite HC. unfold render_chat, of_conversation.
  assert (truthy (PList (of_turn <$> C)) = true) as ->.
  { destruct C; [by apply Exists_nil in Hbad|done]. }
  cbn [iterate]. by apply render_loop_unshowable.
Qed.

Lemma render_chat_conversation_ok w name C i :
  Forall (λ t, is_Some (strftime_float (turn_ts t))
               ∧ utf8_encodable (turn_text t) = true) C →
  ∃ shown, render_chat w i (of_conversation C) name = (shown, None, i).
Proof.
  intros H. destruct C as [|t C]; [by eexists|].
  assert (∃ stamps, Forall2 (λ t stamp, strftime_float (turn_ts t) = Some stamp)
                      (t :: C) stamps) as [stamps Hst].
  { induction H as [|t' C' [[stamp Hs] _] _ [stamps IH]]; [by exists []|].
    exists (stamp :: stamps). by constructor. }
  assert (Forall (λ t, utf8_encodable (turn_text t) = true) (t :: C)) as Htx
    by (eapply Forall_impl; [exact H|]; by intros ? [_ ?]).
  eexists. unfold render_chat, of_conversation. cbn [fmap list_fmap truthy iterate].
  exact (render_loop_conversation w name (t :: C) stamps i Hst Htx).
Qed.

(** X18. A session on a conversation keeps the page as long as every text
    can be shown: when UTF-8 can encode the texts of the conversation, the
    inputs that are sent and the replies of the remote service, and the
    calendar can format the time stamps of the conversation and every
    reading of the clock, no script run ends in [render_chat], whatever is
    sent, cleared or exported; the session then goes through the states the
    handlers of the pressed buttons give, one after the other. *)
Theorem script_runs_of_a_conversation w script : ∀ st C,
  (∀ i, is_Some (strftime_float (clock w i))) →
  (∀ i messages content,
     remote w i messages = api_returns (Some content) → utf8_encodable content = true) →
  Forall (λ run, ∀ input, run.2 = Some (Send input) → utf8_encodable input = true)
    script →
  history st = of_conversation C →
  Forall (λ t, is_Some (strftime_float (turn_ts t))
               ∧ utf8_encodable (turn_text t) = true) C →
  (script_runs w script st).1 = (run w (pressed_buttons script) st).1
  ∧ Forall (λ out, out.1.2 = None) (script_runs w script st).2.
Proof.
  intros st C Hclock Hremote. revert st C.
  induction script as [|[[cfg show_raw] pressed] script IH]; intros st C Hin HC Hts;
    [done|].
  apply Forall_cons_1 in Hin as [Hinput Hin]. cbn [snd] in Hinput.
  cbn [script_runs]. unfold script_run. rewrite HC.
  destruct (render_chat_conversation_ok w (persona_name (persona cfg)) C (tick st) Hts)
    as [shown ->]. rewrite <- HC.
  assert ({| history := history st; disk := disk st; tick := tick st |} = st) as ->
    by by destruct st.
  destruct pressed as [a|].
  - change (pressed_buttons ((cfg, show_raw, Some a) :: script))
      with ((cfg, a) :: pressed_buttons script). cbn [run].
    assert (∃ C1, history (handle w cfg a st).1 = of_conversation C1
                  ∧ Forall (λ t, is_Some (strftime_float (turn_ts t))
                                 ∧ utf8_encodable (turn_text t) = true) C1)
      as (C1 & HC1 & Hts1).
    { destruct (handle_conversation w cfg a st C HC)
        as [H|[H|(input & -> & _ & [H|(content & Hr & H)])]];
        eexists; (split; [exact H|]); rewrite ?Forall_app; repeat split;
        try done; repeat constructor; try apply Hclock; apply encodable_strip;
        eauto. }
    destruct (handle w cfg a st) as [st1 log1]. cbn [fst] in *.
    destruct (IH st1 C1 Hin HC1 Hts1) as [IHst IHout].
    destruct (script_runs w script st1) as [st2 outs].
    destruct (run w (pressed_buttons script) st1) as [st2' log2]. cbn [fst snd] in *.
    split; [done|]. by constructor.
  - change (pressed_buttons ((cfg, show_raw, None) :: script))
      with (pressed_buttons script).
    destruct (IH st C Hin HC Hts) as [IHst IHout].
    destruct (script_runs w script st) as [st2 outs]. cbn [fst snd] in *.
    split; [done|]. by constructor.
Qed.

End PageProofs.
(** * Witnesses and counterexamples, on whole seconds *)

Lemma send_sequence_lengths_witness :
  let sends := [(example_settings, py "hi"); (example_settings, py " and again ")] in
  let out := run example_world ((λ s, (s.1, Send s.2)) <$> sends) example_start in
  let C' := (spec_sends example_world sends [] (tick example_start)).1 in
  let answers := (spec_sends example_world sends [] (tick example_start)).2 in
  history example_start = of_conversation []
  ∧ Forall (λ s, strip s.2 ≠ []) sends
  ∧ history out.1 = of_conversation C'
  ∧ length C'
    = (length (@nil Turn) + 2 * length (List.filter answered answers)
       + length (List.filter (λ r, negb (answered r)) answers))%nat
  ∧ [] `prefix_of` C'
  ∧ length answers = length sends
  ∧ replies out.2 = length (List.filter answered answers)
  ∧ failed_calls out.2 = length (List.filter (λ r, negb (answered r)) answers).
Proof.
  intros sends out C' answers.
  assert (Forall (λ s : settings * pystr, strip s.2 ≠ []) sends) as Hin
    by (repeat constructor; by vm_compute).
  split; [done|]. split; [exact Hin|].
  exact (send_sequence_lengths example_world sends example_start [] eq_refl Hin).
Defined.

Lemma send_prompt_window_witness :
  history example_session = of_conversation example_conversation
  ∧ strip (py " more ") ≠ []
  ∧ let C1 := example_conversation ++ [user_turn example_world (py " more ") example_session] in
    let messages :=
      system_message (persona_system (persona example_settings))
      :: (turn_message <$> drop (length C1 - 24) C1) in
    ∃ st' r log,
      handle_send example_world example_settings (py " more ") example_session
      = (st', completions_create messages r :: log)
      ∧ replies log = 0%nat ∧ failed_calls log = 0%nat
      ∧ length messages = S (length C1 `min` 24)
      ∧ (length messages ≤ 25)%nat
      ∧ last messages = Some (turn_message (user_turn example_world (py " more ") example_session)).
Proof.
  assert (strip (py " more ") ≠ []) as Hin by by vm_compute.
  split; [done|]. split; [exact Hin|].
  exact (send_prompt_window example_world example_settings (py " more ")
           example_session example_conversation eq_refl Hin).
Defined.

Lemma send_blank_is_noop_witness :
  forallb isspace (py "   ") = true
  ∧ handle_send example_world example_settings (py "   ") example_session
    = (example_session, [st_warning_empty]).
Proof.
  split; [reflexivity|].
  exact (send_blank_is_noop example_world example_settings (py "   ") example_session
           eq_refl).
Defined.

Lemma load_history_missing_file_witness :
  (∅ : gmap string pystr) !! PERSIST_FILE = None
  ∧ load_history ∅ PERSIST_FILE = (of_conversation [], []).
Proof.
  split; [reflexivity|].
  exact (load_history_missing_file ∅ PERSIST_FILE eq_refl).
Defined.

Lemma load_history_returns_history_key_witness :
  let files : gmap string pystr := {[ PERSIST_FILE := history_is_five ]} in
  files !! PERSIST_FILE = Some history_is_five
  ∧ json_loads history_is_five = Some (PDict [(py "history", PInt 5)])
  ∧ load_history files PERSIST_FILE = (PInt 5, []).
Proof.
  intros files.
  assert (files !! PERSIST_FILE = Some history_is_five) as Hf
    by apply lookup_singleton_eq.
  assert (json_loads history_is_five = Some (PDict [(py "history", PInt 5)])) as Hj
    by by vm_compute.
  split; [exact Hf|]. split; [exact Hj|].
  exact (load_history_returns_history_key files PERSIST_FILE history_is_five
           [(py "history", PInt 5)] Hf Hj).
Defined.

Lemma load_history_not_an_object_witness :
  let files : gmap string pystr := {[ PERSIST_FILE := py "[1, 2" ]} in
  files !! PERSIST_FILE = Some (py "[1, 2")
  ∧ (∀ data, json_loads (py "[1, 2") ≠ Some (PDict data))
  ∧ ∃ e, load_history files PERSIST_FILE = (of_conversation [], [st_warning_load e]).
Proof.
  intros files.
  assert (files !! PERSIST_FILE = Some (py "[1, 2")) as Hf by apply lookup_singleton_eq.
  assert (∀ data, json_loads (py "[1, 2") ≠ Some (PDict data)) as Hj
    by (intros data; by vm_compute).
  split; [exact Hf|]. split; [exact Hj|].
  exact (load_history_not_an_object files PERSIST_FILE (py "[1, 2") Hf Hj).
Defined.

Lemma save_load_roundtrip_witness :
  float_roundtrips 5
  ∧ Forall (λ t, float_roundtrips (turn_ts t)) example_conversation
  ∧ Forall (λ t, utf8_encodable (turn_text t) = true) example_conversation
  ∧ (save_history 5 (of_conversation example_conversation) PERSIST_FILE ∅).2 = []
  ∧ load_history
      (save_history 5 (of_conversation example_conversation) PERSIST_FILE ∅).1
      PERSIST_FILE
    = (of_conversation example_conversation, []).
Proof.
  assert (float_roundtrips 5) as Hnow by by vm_compute.
  assert (Forall (λ t, float_roundtrips (turn_ts t)) example_conversation) as Hts
    by (repeat constructor; by vm_compute).
  assert (Forall (λ t, utf8_encodable (turn_text t) = true) example_conversation) as Htx
    by (repeat constructor; by vm_compute).
  split; [exact Hnow|]. split; [exact Hts|]. split; [exact Htx|].
  exact (save_load_roundtrip 5 example_conversation PERSIST_FILE ∅ Hnow Hts Htx).
Defined.


Lemma timestamps_sorted_in_session_witness :
  let script :=
    [(example_settings, Send (py "hi")); (example_settings, Export);
     (example_settings, Send (py "more")); (example_settings, Clear);
     (example_settings, Send (py "again"))] in
  (∀ i j, (i ≤ j)%nat → float_le (clock example_world i) (clock example_world j))
  ∧ history example_session = of_conversation example_conversation
  ∧ timestamps_sorted example_conversation
  ∧ (∀ t n, t ∈ example_conversation → (tick example_session ≤ n)%nat →
            float_le (turn_ts t) (clock example_world n))
  ∧ ∃ C', history (run example_world script example_session).1 = of_conversation C'
      ∧ timestamps_sorted C'.
Proof.
  intros script.
  assert (∀ i j, (i ≤ j)%nat →
                 float_le (clock example_world i) (clock example_world j)) as Hmono.
  { intros i j Hij. cbn. lia. }
  assert (timestamps_sorted example_conversation) as Hsorted.
  { intros [|[|i]] [|[|[|j]]] a b Hij Hi Hj; try done; try lia.
    injection Hi as <-. injection Hj as <-. cbn. lia. }
  assert (∀ t n, t ∈ example_conversation → (tick example_session ≤ n)%nat →
                 float_le (turn_ts t) (clock example_world n)) as Hbound.
  { intros t n Ht _. unfold example_conversation in Ht.
    rewrite !elem_of_cons, elem_of_nil in Ht.
    destruct Ht as [->|[->|[]]]; cbn; lia. }
  split; [exact Hmono|]. split; [done|]. split; [exact Hsorted|]. split; [exact Hbound|].
  exact (timestamps_sorted_in_session example_world script example_session
           example_conversation Hmono eq_refl Hsorted Hbound).
Defined.

(** C5, as stated, fails: a file that is JSON but not a snapshot is not
    refused; the value under its [history] key, here the number 5, becomes
    the history and no warning is shown. *)
Lemma load_history_keeps_any_history :
  let files : gmap string pystr := {[ PERSIST_FILE := history_is_five ]} in
  (∀ now C, json_loads history_is_five ≠ Some (snapshot now (of_conversation C)))
  ∧ load_history files PERSIST_FILE = (PInt 5, [])
  ∧ ¬ ∃ e, load_history files PERSIST_FILE = (of_conversation [], [st_warning_load e]).
Proof.
  intros files.
  assert (load_history files PERSIST_FILE = (PInt 5, [])) as Hload.
  { unfold load_history, files. rewrite lookup_singleton_eq. by vm_compute. }
  split; [intros now C; by vm_compute|]. split; [exact Hload|].
  rewrite Hload. by intros [e He].
Qed.

(** C2, as stated, fails: a conversation whose text holds a lone surrogate
    cannot be written to the UTF-8 file; [save_history] shows the error and
    leaves a torn file, and [load_history] then gives the empty
    conversation with a warning. *)
Lemma save_load_loses_surrogate_text :
  let saved := save_history 2 (of_conversation surrogate_conversation) PERSIST_FILE ∅ in
  saved.2 = [st_error_save UnicodeEncodeError]
  ∧ load_history saved.1 PERSIST_FILE = (of_conversation [], [st_warning_load JSONDecodeError])
  ∧ load_history saved.1 PERSIST_FILE ≠ (of_conversation surrogate_conversation, []).
Proof.
  intros saved. unfold saved, save_history.
  destruct (write_chunks _ _) as [text ok] eqn:E. vm_compute in E.
  injection E as <- <-. cbn [fst snd].
  assert (∀ text, load_history (<[PERSIST_FILE := text]> ∅) PERSIST_FILE
                  = match json_loads text with
                    | Some (PDict data) =>
                        (default (PList []) (dict_get (py "history") data), [])
                    | Some _ => (PList [], [st_warning_load AttributeError])
                    | None => (PList [], [st_warning_load JSONDecodeError])
                    end) as ->
    by (intros; unfold load_history; by rewrite lookup_insert_eq).
  by vm_compute.
Qed.


(** C3, as stated, fails: a session that starts with persistence on takes
    the history of the file as it is, and a file whose timestamps go back
    gives a conversation whose timestamps go back. *)
Lemma loaded_timestamps_unsorted :
  let files : gmap string pystr := {[ PERSIST_FILE := unsorted_snapshot ]} in
  let st := (session_start example_settings files 0).1 in
  history st = of_conversation unsorted_conversation
  ∧ ¬ timestamps_sorted unsorted_conversation.
Proof.
  intros files st. split.
  - unfold st, session_start, load_history, files. cbn [persist_to_disk example_settings].
    rewrite lookup_singleton_eq. by vm_compute.
  - intros H. specialize (H 0%nat 1%nat _ _ ltac:(lia) eq_refl eq_refl).
    cbn in H. lia.
Qed.

(** The scenario of the specification, run on the example world with
    persistence off: from the empty conversation, Send("hi") is answered;
    Send("") changes nothing; Clear empties the conversation; Export then
    downloads a text whose history is the empty list. *)
Example scenario_send_blank_clear_export :
  let cfg := {| model := DEFAULT_MODEL; persist_to_disk := false; persona := RoastBot |} in
  let after_send := (handle_send example_world cfg (py "hi") example_start).1 in
  let after_blank := (handle_send example_world cfg (py "") after_send).1 in
  let after_clear := (handle_clear cfg after_blank).1 in
  history after_send
  = of_conversation
      [ {| turn_role := user; turn_text := py "hi"; turn_ts := 100 |};
        {| turn_role := assistant; turn_text := py "Hello there."; turn_ts := 102 |} ]
  ∧ after_blank = after_send
  ∧ history after_clear = of_conversation []
  ∧ ∃ data,
      (handle_export example_world cfg after_clear).2 = [st_download data]
      ∧ json_loads data
        = Some (PDict [(py "exported_at", PFloat 103); (py "persona", PStr (py "RoastBot"));
                       (py "model", PStr (py "gpt-3.5-turbo")); (py "history", PList [])]).
Proof.
  cbv zeta. split; [by vm_compute|]. split; [by vm_compute|]. split; [by vm_compute|].
  eexists. split; [reflexivity|]. by vm_compute.
Qed.

(** * The handlers and the page, on whole seconds and the UTC calendar *)

Lemma send_calls_remote_iff_window_ok_witness :
  let l := of_turn <$> example_conversation in
  let u := user_message example_world (py " more ") example_session in
  history example_session = PList l
  ∧ strip (py " more ") ≠ []
  ∧ if forallb turn_like (window l u)
    then ∃ rest log,
           (handle_send example_world example_settings (py " more ") example_session).2
           = completions_create
               (system_message (persona_system (persona example_settings)) :: rest)
               (remote example_world (1 + tick example_session)
                  (system_message (persona_system (persona example_settings)) :: rest))
             :: log
           ∧ length rest = length (window l u)
    else handle_send example_world example_settings (py " more ") example_session
         = ({| history := PList (l ++ [u]);
               disk := disk example_session; tick := 1 + tick example_session |},
            [st_error_send KeyOrTypeError]).
Proof.
  intros l u.
  assert (strip (py " more ") ≠ []) as Hin by by vm_compute.
  split; [done|]. split; [exact Hin|].
  exact (send_calls_remote_iff_window_ok example_world example_settings (py " more ")
           example_session l eq_refl Hin).
Defined.

Lemma not_a_list_history_stays_witness :
  let script :=
    [(example_settings, Send (py "hi")); (example_settings, Export);
     (settings_without_persistence, Send (py "again"))] in
  is_list (history session_on_empty_dict) = false
  ∧ forallb (λ ca, negb (is_clear ca.2)) script = true
  ∧ history (run example_world script session_on_empty_dict).1 = history session_on_empty_dict
  ∧ disk (run example_world script session_on_empty_dict).1 = disk session_on_empty_dict
  ∧ (replies (run example_world script session_on_empty_dict).2
     + failed_calls (run example_world script session_on_empty_dict).2 = 0)%nat.
Proof.
  intros script. split; [reflexivity|]. split; [reflexivity|].
  exact (not_a_list_history_stays example_world script session_on_empty_dict eq_refl eq_refl).
Defined.

Lemma persistence_off_leaves_files_witness :
  let script :=
    [(settings_without_persistence, Send (py "hi"));
     (settings_without_persistence, Clear);
     (settings_without_persistence, Export)] in
  forallb (λ ca, negb (persist_to_disk ca.1)) script = true
  ∧ disk (run example_world script example_saved_session).1 = disk example_saved_session.
Proof.
  intros script. split; [reflexivity|].
  exact (persistence_off_leaves_files example_world script example_saved_session eq_refl).
Defined.

Lemma send_then_restart_reloads_witness :
  let sent := handle_send example_world example_settings (py "hi") example_session in
  history example_session = of_conversation example_conversation
  ∧ strip (py "hi") ≠ []
  ∧ persist_to_disk example_settings = true
  ∧ remote example_world (1 + tick example_session)
      (prompt example_settings
         (example_conversation ++ [user_turn example_world (py "hi") example_session]))
    = api_returns (Some (py " Hello there. "))
  ∧ float_roundtrips (clock example_world (tick example_session))
  ∧ float_roundtrips (clock example_world (2 + tick example_session))
  ∧ float_roundtrips (clock example_world (3 + tick example_session))
  ∧ Forall (λ t, float_roundtrips (turn_ts t) ∧ utf8_encodable (turn_text t) = true)
      example_conversation
  ∧ utf8_encodable (py "hi") = true
  ∧ utf8_encodable (py " Hello there. ") = true
  ∧ session_start example_settings (disk sent.1) 7
    = ({| history := history sent.1; disk := disk sent.1; tick := 7 |}, []).
Proof.
  intros sent.
  assert (strip (py "hi") ≠ []) as Hin by by vm_compute.
  assert (float_roundtrips (clock example_world (tick example_session))) as H0
    by by vm_compute.
  assert (float_roundtrips (clock example_world (2 + tick example_session))) as H2
    by by vm_compute.
  assert (float_roundtrips (clock example_world (3 + tick example_session))) as H3
    by by vm_compute.
  assert (Forall (λ t, float_roundtrips (turn_ts t) ∧ utf8_encodable (turn_text t) = true)
            example_conversation) as HC
    by (repeat constructor; by vm_compute).
  repeat (split; [done|]).
  exact (send_then_restart_reloads example_world example_settings example_settings (py "hi")
           example_session example_conversation (py " Hello there. ") 7
           eq_refl Hin eq_refl eq_refl eq_refl H0 H2 H3 HC eq_refl eq_refl).
Defined.

Lemma clear_then_restart_is_empty_witness :
  persist_to_disk example_settings = true
  ∧ session_start example_settings
      (disk (handle_clear example_settings example_saved_session).1) 9
    = ({| history := PList [];
          disk := disk (handle_clear example_settings example_saved_session).1;
          tick := 9 |}, []).
Proof.
  split; [reflexivity|].
  exact (clear_then_restart_is_empty example_settings example_settings
           example_saved_session 9 eq_refl).
Defined.

Lemma clear_without_persistence_keeps_file_witness :
  let cleared := (handle_clear settings_without_persistence example_saved_session).1 in
  persist_to_disk settings_without_persistence = false
  ∧ persist_to_disk example_settings = true
  ∧ disk example_saved_session !! PERSIST_FILE
    = Some (json_dumps (snapshot 5 (of_conversation example_conversation)))
  ∧ float_roundtrips 5
  ∧ Forall (λ t, float_roundtrips (turn_ts t)) example_conversation
  ∧ history cleared = PList []
  ∧ history (session_start example_settings (disk cleared) 9).1
    = of_conversation example_conversation.
Proof.
  intros cleared.
  assert (disk example_saved_session !! PERSIST_FILE
          = Some (json_dumps (snapshot 5 (of_conversation example_conversation)))) as Hf
    by apply lookup_singleton_eq.
  assert (float_roundtrips 5) as Hnow by by vm_compute.
  assert (Forall (λ t, float_roundtrips (turn_ts t)) example_conversation) as Hts
    by (repeat constructor; by vm_compute).
  split; [reflexivity|]. split; [reflexivity|]. split; [exact Hf|].
  split; [exact Hnow|]. split; [exact Hts|].
  exact (clear_without_persistence_keeps_file settings_without_persistence example_settings
           example_saved_session 5 example_conversation 9 eq_refl eq_refl Hf Hnow Hts).
Defined.

Lemma replies_follow_questions_witness :
  let script :=
    [(example_settings, Send (py "hi")); (example_settings, Send (py "  "));
     (example_settings, Export); (example_settings, Send (py "more"));
     (example_settings, Send (py "again")); (example_settings, Send (py "anyone?"))] in
  history example_session = of_conversation example_conversation
  ∧ replies_follow false example_conversation = true
  ∧ ∃ C', history (run example_world script example_session).1 = of_conversation C'
          ∧ replies_follow false C' = true.
Proof.
  intros script. split; [reflexivity|]. split; [reflexivity|].
  exact (replies_follow_questions example_world script example_session
           example_conversation eq_refl eq_refl).
Defined.

Lemma texts_stay_trimmed_witness :
  let script :=
    [(example_settings, Send (py "  hi  ")); (example_settings, Clear);
     (example_settings, Send (py " more"))] in
  history example_session = of_conversation example_conversation
  ∧ Forall trimmed example_conversation
  ∧ ∃ C', history (run example_world script example_session).1 = of_conversation C'
          ∧ Forall trimmed C'.
Proof.
  intros script.
  assert (Forall trimmed example_conversation) as Ht.
  { repeat (apply Forall_cons_2; [split; [by vm_compute|by intros _; vm_compute]|]).
    apply Forall_nil_2. }
  split; [reflexivity|]. split; [exact Ht|].
  exact (texts_stay_trimmed example_world script example_session example_conversation
           eq_refl Ht).
Defined.

Lemma failed_send_is_not_persisted_witness :
  let asked := user_turn example_world (py "anyone?") example_saved_session in
  let sent :=
    handle_send example_world example_settings (py "anyone?") example_saved_session in
  history example_saved_session = of_conversation example_conversation
  ∧ strip (py "anyone?") ≠ []
  ∧ (∀ content,
       remote example_world (1 + tick example_saved_session)
         (prompt example_settings (example_conversation ++ [asked]))
       ≠ api_returns (Some content))
  ∧ persist_to_disk example_settings = true
  ∧ disk example_saved_session !! PERSIST_FILE
    = Some (json_dumps (snapshot 5 (of_conversation example_conversation)))
  ∧ float_roundtrips 5
  ∧ Forall (λ t, float_roundtrips (turn_ts t)) example_conversation
  ∧ history sent.1 = of_conversation (example_conversation ++ [asked])
  ∧ history (session_start example_settings (disk sent.1) 9).1
    = of_conversation example_conversation.
Proof.
  intros asked sent.
  assert (strip (py "anyone?") ≠ []) as Hin by by vm_compute.
  assert (∀ content,
            remote example_world (1 + tick example_saved_session)
              (prompt example_settings (example_conversation ++ [asked]))
            ≠ api_returns (Some content)) as Hr by (intros content; discriminate).
  assert (disk example_saved_session !! PERSIST_FILE
          = Some (json_dumps (snapshot 5 (of_conversation example_conversation)))) as Hf
    by apply lookup_singleton_eq.
  assert (float_roundtrips 5) as Hnow by by vm_compute.
  assert (Forall (λ t, float_roundtrips (turn_ts t)) example_conversation) as Hts
    by (repeat constructor; by vm_compute).
  split; [reflexivity|]. split; [exact Hin|]. split; [exact Hr|]. split; [reflexivity|].
  split; [exact Hf|]. split; [exact Hnow|]. split; [exact Hts|].
  exact (failed_send_is_not_persisted example_world example_settings example_settings
           (py "anyone?") example_saved_session example_conversation 5 9
           eq_refl Hin Hr eq_refl Hf Hnow Hts).
Defined.

Lemma render_chat_conversation_witness :
  Forall2 (λ t stamp, strftime_float (turn_ts t) = Some stamp)
    example_conversation example_stamps
  ∧ Forall (λ t, utf8_encodable (turn_text t) = true) example_conversation
  ∧ render_chat example_world 0 (of_conversation example_conversation) (py "RoastBot")
    = (concat (zip_with (turn_widgets (py "RoastBot")) example_conversation example_stamps),
       None, 0%nat).
Proof.
  assert (Forall2 (λ t stamp, strftime_float (turn_ts t) = Some stamp)
            example_conversation example_stamps) as Hs
    by (repeat constructor; by vm_compute).
  assert (Forall (λ t, utf8_encodable (turn_text t) = true) example_conversation) as Htx
    by (repeat constructor; by vm_compute).
  split; [exact Hs|]. split; [exact Htx|].
  exact (render_chat_conversation example_world (py "RoastBot") example_conversation
           example_stamps 0 Hs Htx).
Defined.

Lemma render_chat_stops_at_non_dict_witness :
  let before := of_turn <$> example_conversation in
  let shown :=
    concat (zip_with (turn_widgets (py "RoastBot")) example_conversation example_stamps) in
  render_loop example_world (py "RoastBot") before 0 = (shown, None, 0%nat)
  ∧ is_dict (PStr (py "hi")) = false
  ∧ render_chat example_world 0
      (PList (before ++ PStr (py "hi") :: [of_turn (user_turn example_world (py "x")
                                                      example_session)]))
      (py "RoastBot")
    = (shown, Some raise_AttributeError, 0%nat).
Proof.
  intros before shown.
  assert (render_loop example_world (py "RoastBot") before 0 = (shown, None, 0%nat)) as Hb
    by by vm_compute.
  split; [exact Hb|]. split; [reflexivity|].
  exact (render_chat_stops_at_non_dict example_world (py "RoastBot") before
           (PStr (py "hi")) _ shown 0 0 Hb eq_refl).
Defined.

Lemma render_chat_not_a_list_witness :
  is_list (PInt 5) = false
  ∧ if truthy (PInt 5)
    then ∃ e, render_chat example_world 0 (PInt 5) (py "RoastBot") = ([], Some e, 0%nat)
    else render_chat example_world 0 (PInt 5) (py "RoastBot")
         = ([st_info NO_MESSAGES], None, 0%nat).
Proof.
  split; [reflexivity|].
  exact (render_chat_not_a_list example_world (py "RoastBot") (PInt 5) 0 eq_refl).
Defined.

Lemma unrenderable_history_blocks_the_page_witness :
  let script :=
    [(example_settings, false, Some (Send (py "hi")));
     (example_settings, true, Some Clear);
     (example_settings, false, None)] in
  unrenderable (history session_on_five) = true
  ∧ history (script_runs example_world script session_on_five).1 = history session_on_five
  ∧ disk (script_runs example_world script session_on_five).1 = disk session_on_five
  ∧ Forall (λ out, (∃ e, out.1.2 = Some e) ∧ out.2 = [])
      (script_runs example_world script session_on_five).2.
Proof.
  intros script. split; [reflexivity|].
  exact (unrenderable_history_blocks_the_page example_world script session_on_five eq_refl).
Defined.

Lemma script_runs_of_a_conversation_witness :
  let script :=
    [(example_settings, false, Some (Send (py "hi")));
     (example_settings, true, None);
     (settings_without_persistence, true, Some Export);
     (example_settings, false, Some Clear)] in
  (∀ i, is_Some (strftime_float (clock example_world i)))
  ∧ (∀ i messages content,
       remote example_world i messages = api_returns (Some content) →
       utf8_encodable content = true)
  ∧ Forall (λ run, ∀ input, run.2 = Some (Send input) → utf8_encodable input = true)
      script
  ∧ history example_session = of_conversation example_conversation
  ∧ Forall (λ t, is_Some (strftime_float (turn_ts t))
                 ∧ utf8_encodable (turn_text t) = true) example_conversation
  ∧ (script_runs example_world script example_session).1
    = (run example_world (pressed_buttons script) example_session).1
  ∧ Forall (λ out, out.1.2 = None) (script_runs example_world script example_session).2.
Proof.
  intros script.
  assert (∀ i, is_Some (strftime_float (clock example_world i))) as Hclock
    by (intros i; by eexists).
  assert (∀ i messages content,
            remote example_world i messages = api_returns (Some content) →
            utf8_encodable content = true) as Hremote.
  { intros i messages content. cbn [remote example_world].
    destruct (i <? 4)%nat; [|done]. by intros [= <-]. }
  assert (Forall (λ run : settings * bool * option action,
                    ∀ input, run.2 = Some (Send input) → utf8_encodable input = true)
            script) as Hin.
  { repeat (apply Forall_cons_2; [intros input; cbn [snd]; try done|]);
      [by intros [= <-]|apply Forall_nil_2]. }
  assert (Forall (λ t, is_Some (strftime_float (turn_ts t))
                       ∧ utf8_encodable (turn_text t) = true) example_conversation) as Hts.
  { repeat (apply Forall_cons_2; [split; [by eexists|by vm_compute]|]).
    apply Forall_nil_2. }
  split; [exact Hclock|]. split; [exact Hremote|]. split; [exact Hin|].
  split; [reflexivity|]. split; [exact Hts|].
  exact (script_runs_of_a_conversation example_world script example_session
           example_conversation Hclock Hremote Hin eq_refl Hts).
Defined.

Lemma failed_save_loses_the_file_witness :
  let h := of_conversation surrogate_conversation in
  float_roundtrips 2
  ∧ py_ok h
  ∧ py_encodable h = false
  ∧ (save_history 2 h PERSIST_FILE ∅).2 = [st_error_save UnicodeEncodeError]
  ∧ load_history (save_history 2 h PERSIST_FILE ∅).1 PERSIST_FILE
    = (PList [], [st_warning_load JSONDecodeError]).
Proof.
  intros h.
  assert (float_roundtrips 2) as Hnow by by vm_compute.
  assert (py_ok h) as Hok
    by (apply conversation_ok; repeat constructor; by vm_compute).
  split; [exact Hnow|]. split; [exact Hok|]. split; [reflexivity|].
  exact (failed_save_loses_the_file 2 h PERSIST_FILE ∅ Hnow Hok eq_refl).
Defined.

Lemma render_chat_stops_at_unencodable_text_witness :
  let bad := {| turn_role := assistant; turn_text := [55296]; turn_ts := 5 |} in
  Forall2 (λ t stamp, strftime_float (turn_ts t) = Some stamp)
    example_conversation example_stamps
  ∧ Forall (λ t, utf8_encodable (turn_text t) = true) example_conversation
  ∧ strftime_float (turn_ts bad) = Some (py "1970-01-01 00:00:05")
  ∧ utf8_encodable (turn_text bad) = false
  ∧ render_chat example_world 0
      (of_conversation (example_conversation ++ bad :: example_conversation))
      (py "RoastBot")
    = (concat (zip_with (turn_widgets (py "RoastBot")) example_conversation example_stamps)
       ++ [st_markdown (header (py "RoastBot") (py "1970-01-01 00:00:05")) true],
       Some raise_UnicodeEncodeError, 0%nat).
Proof.
  intros bad.
  assert (Forall2 (λ t stamp, strftime_float (turn_ts t) = Some stamp)
            example_conversation example_stamps) as Hs
    by (repeat constructor; by vm_compute).
  assert (Forall (λ t, utf8_encodable (turn_text t) = true) example_conversation) as Htx
    by (repeat constructor; by vm_compute).
  assert (strftime_float (turn_ts bad) = Some (py "1970-01-01 00:00:05")) as Hst
    by by vm_compute.
  split; [exact Hs|]. split; [exact Htx|]. split; [exact Hst|]. split; [reflexivity|].
  exact (render_chat_stops_at_unencodable_text example_world (py "RoastBot")
           example_conversation bad example_conversation example_stamps
           (py "1970-01-01 00:00:05") 0 Hs Htx Hst eq_refl).
Defined.

Lemma unshowable_text_blocks_the_page_witness :
  let st := {| history := of_conversation surrogate_conversation; disk := ∅; tick := 0 |} in
  let script :=
    [(example_settings, false, Some Clear);
     (example_settings, false, Some (Send (py "hi")));
     (settings_without_persistence, true, Some Export)] in
  history st = of_conversation surrogate_conversation
  ∧ Exists (λ t, utf8_encodable (turn_text t) = false) surrogate_conversation
  ∧ history (script_runs example_world script st).1 = history st
  ∧ disk (script_runs example_world script st).1 = disk st
  ∧ Forall (λ out, (∃ e, out.1.2 = Some e) ∧ out.2 = [])
      (script_runs example_world script st).2.
Proof.
  intros st script.
  assert (Exists (λ t, utf8_encodable (turn_text t) = false) surrogate_conversation)
    as Hbad by (apply Exists_cons_hd; reflexivity).
  split; [reflexivity|]. split; [exact Hbad|].
  exact (unshowable_text_blocks_the_page example_world script st surrogate_conversation
           eq_refl Hbad).
Defined.
